(** * Page-object command wrapper (lib/page-object/command-wrapper.js)

    A shallow embedding of the command-wrapping and selector-resolution
    code of the page-object layer, and the properties of it that the
    specification states.

    Modelling conventions.
    - JavaScript strings are [string]s of 8-bit characters.
    - Objects live in a heap (a list indexed by location); an object has
      an optional prototype and an association list of own properties
      kept in enumeration order, since [Object.keys] is order sensitive.
    - Functions are first-order data: a function supplied from outside
      (selector functions, driver commands, user callbacks) is [Native id]
      and is interpreted by an environment; the two closures the file
      itself creates are [CallbackWrapper] and [WrappedCommand].
    - Code runs in a state-and-exception monad over the [world]: the
      heap and the shared client. Every parent context refers to that
      one client, so [parent.client] is the client of the world.
    - The depth of nested calls is bounded, as it is by the call stack
      of the engine; running out of it is a range error.
    - The built-in members of [Object.prototype] are not modelled, and
      arrays and function values carry no named properties. *)

From Stdlib Require Import ZArith Lia Bool Ascii String.
From Stdlib Require Import DecimalString.
From stdpp Require Import base list strings.

Local Open Scope string_scope.
Local Open Scope Z_scope.

(** String concatenation computes again (stdpp turns this off). *)
Local Arguments String.append !_ _ / : simpl nomatch.

(** ** Strings *)

Module JsString.

(** [s.indexOf(c)] for a one-character needle: first index, or -1. *)
Fixpoint indexOf_from (c : ascii) (s : string) (i : Z) : Z :=
  match s with
  | EmptyString => -1
  | String a s' => if Ascii.eqb a c then i else indexOf_from c s' (i + 1)
  end.

Definition indexOf (c : ascii) (s : string) : Z := indexOf_from c s 0.

(** [s.lastIndexOf(c)]: last index, or -1. *)
Fixpoint lastIndexOf_from (c : ascii) (s : string) (i acc : Z) : Z :=
  match s with
  | EmptyString => acc
  | String a s' =>
      lastIndexOf_from c s' (i + 1) (if Ascii.eqb a c then i else acc)
  end.

Definition lastIndexOf (c : ascii) (s : string) : Z :=
  lastIndexOf_from c s 0 (-1).

Definition len (s : string) : Z := Z.of_nat (String.length s).

Definition clamp (s : string) (i : Z) : Z := Z.max 0 (Z.min i (len s)).

(** [s.substring(a, b)]: both ends clamped to [0, length], swapped
    when out of order. *)
Definition substring2 (a b : Z) (s : string) : string :=
  let a' := clamp s a in
  let b' := clamp s b in
  let lo := Z.min a' b' in
  let hi := Z.max a' b' in
  String.substring (Z.to_nat lo) (Z.to_nat (hi - lo)) s.

(** [s.substring(a)]. *)
Definition substring1 (a : Z) (s : string) : string :=
  substring2 a (len s) s.

(** [s.split(c)] for a one-character separator. *)
Fixpoint split (c : ascii) (s : string) : list string :=
  match s with
  | EmptyString => [EmptyString]
  | String a s' =>
      if Ascii.eqb a c then EmptyString :: split c s'
      else match split c s' with
           | h :: t => String a h :: t
           | [] => [String a EmptyString]
           end
  end.

(** [xs.join(",")], which is also how an array prints. *)
Fixpoint join (xs : list string) : string :=
  match xs with
  | [] => EmptyString
  | [x] => x
  | x :: rest => x ++ "," ++ join rest
  end.

Definition startsWith (c : ascii) (s : string) : bool :=
  match s with
  | String a _ => Ascii.eqb a c
  | EmptyString => false
  end.

(** Characters the regular-expression dot refuses: LF and CR (the two
    further line terminators of the language are not 8-bit
    characters). *)
Definition is_line_terminator (a : ascii) : bool :=
  Ascii.eqb a "010"%char || Ascii.eqb a "013"%char.

(** The tail [.*>$] of the pattern, anchored at the start of [s]. *)
Fixpoint dot_star_gt_end (s : string) : bool :=
  match s with
  | EmptyString => false
  | String a EmptyString => Ascii.eqb a ">"%char
  | String a s' => negb (is_line_terminator a) && dot_star_gt_end s'
  end.

(** [/[^<]+<.*>$/] tried at every start position; [prev] records that
    the character just before the current one is not ["<"]. *)
Fixpoint param_from (prev : bool) (s : string) : bool :=
  match s with
  | EmptyString => false
  | String a s' =>
      (prev && Ascii.eqb a "<"%char && dot_star_gt_end s')
      || param_from (negb (Ascii.eqb a "<"%char)) s'
  end.

(** [s.match(/[^<]+<.*>$/)] as a truth value. *)
Definition matches_param (s : string) : bool := param_from false s.

(** Every character of [s] satisfies [p]. *)
Fixpoint all_chars (p : ascii -> bool) (s : string) : bool :=
  match s with
  | EmptyString => true
  | String a s' => p a && all_chars p s'
  end.

Definition is_not (c : ascii) (a : ascii) : bool := negb (Ascii.eqb a c).

(** No character of [s] is one the dot refuses. *)
Definition no_line_break (s : string) : bool :=
  all_chars (fun a => negb (is_line_terminator a)) s.

(** The shape [name<body>]: the name is not empty and has no ["<"], the
    body has no line break. *)
Definition well_formed_reference (name body : string) : bool :=
  negb (String.eqb name EmptyString)
  && all_chars (is_not "<"%char) name
  && all_chars (fun a => negb (is_line_terminator a)) body.

Definition reference (name body : string) : string :=
  name ++ "<" ++ body ++ ">".

End JsString.

(** ** Values, objects and the world *)

Abbreviation loc := nat.

#[warnings="-register-all"]
Inductive value : Type :=
| VUndef
| VNull
| VBool (b : bool)
| VNum (n : Z)
| VStr (s : string)
| VObj (l : loc)
| VArr (vs : list value)
| VFun (f : func)
with func : Type :=
| Native (id : nat)
| CallbackWrapper (prevLocateStrategy : value) (originalCallback : value)
| WrappedCommand (parent : loc) (commandFn : value) (commandName : string)
                 (isChaiAssertion : bool).

Record obj := Obj { proto : option loc; props : list (string * value) }.

(** One entry of the driver's command queue. *)
Inductive qitem :=
| QSwitch (strategy : string)
| QCall (f : value) (args : list value).

(** The shared client that every parent context refers to. *)
Record client := Client {
  locateStrategy : value;
  queue : list qitem;
  results_errors : Z;
  errors : list string
}.

Record world := World { heap : list obj; cl : client }.

Inductive exn :=
| JsError (msg : string)
| JsTypeError (msg : string)
| JsRangeError (msg : string).

Inductive outcome (A : Type) :=
| Ok (a : A)
| Throw (e : exn).
Arguments Ok {A} a.
Arguments Throw {A} e.

(** The value of [this] in a call. *)
Inductive this_arg := ThisNull | ThisClient | ThisApi.

Definition M (A : Type) : Type := world -> outcome A * world.

Definition ret {A} (a : A) : M A := fun w => (Ok a, w).
Definition throw {A} (e : exn) : M A := fun w => (Throw e, w).
Definition bind {A B} (m : M A) (k : A -> M B) : M B :=
  fun w => match m w with
           | (Ok a, w') => k a w'
           | (Throw e, w') => (Throw e, w')
           end.
Definition lift {A} (o : outcome A) : M A := fun w => (o, w).
Definition gets {A} (f : world -> A) : M A := fun w => (Ok (f w), w).
Definition modify (f : world -> world) : M unit := fun w => (Ok tt, f w).

Notation "'let*' x ':=' m 'in' k" := (bind m (fun x => k))
  (at level 10, x name, m at level 100, k at level 200, only parsing).

(** The double-quote character, as a string. *)
Definition dquote : string := String (ascii_of_nat 34) EmptyString.

(** ** Conversions and property access *)

(** [String(v)]. Objects print with the default [toString]; a function
    prints as its source text, which begins with the keyword. *)
Fixpoint to_string (v : value) : string :=
  match v with
  | VUndef => "undefined"
  | VNull => "null"
  | VBool true => "true"
  | VBool false => "false"
  | VNum n => NilZero.string_of_int (Z.to_int n)
  | VStr s => s
  | VObj _ => "[object Object]"
  | VArr vs =>
      JsString.join
        (List.map (fun x => match x with
                            | VUndef | VNull => EmptyString
                            | _ => to_string x
                            end) vs)
  | VFun _ => "function"
  end.

(** Truthiness of a value in a condition. *)
Definition truthy (v : value) : bool :=
  match v with
  | VUndef | VNull => false
  | VBool b => b
  | VNum n => negb (n =? 0)
  | VStr s => negb (String.eqb s EmptyString)
  | VObj _ | VArr _ | VFun _ => true
  end.

(** [typeof v === 'function']. *)
Definition is_function (v : value) : bool :=
  match v with VFun _ => true | _ => false end.

Fixpoint assoc (k : string) (ps : list (string * value)) : option value :=
  match ps with
  | [] => None
  | (k', v) :: t => if String.eqb k' k then Some v else assoc k t
  end.

(** Assignment to an own property: an existing key keeps its place, a
    new key goes last. *)
Fixpoint assoc_set (k : string) (v : value) (ps : list (string * value))
  : list (string * value) :=
  match ps with
  | [] => [(k, v)]
  | (k', v') :: t =>
      if String.eqb k' k then (k, v) :: t else (k', v') :: assoc_set k v t
  end.

(** Property lookup along the prototype chain; [n] bounds the walk. *)
Fixpoint lookup_prop (n : nat) (h : list obj) (l : loc) (k : string)
  : option value :=
  match n with
  | O => None
  | S n' =>
      match h !! l with
      | None => None
      | Some o =>
          match assoc k (props o) with
          | Some v => Some v
          | None =>
              match proto o with
              | Some p => lookup_prop n' h p k
              | None => None
              end
          end
      end
  end.

(** A prototype chain never revisits an object, so it is no longer than
    the heap. *)
Definition find_prop (h : list obj) (l : loc) (k : string) : option value :=
  lookup_prop (S (length h)) h l k.

(** [o[k]] for an object [o]. *)
Definition get (h : list obj) (l : loc) (k : string) : value :=
  default VUndef (find_prop h l k).

(** [k in o] for an object [o]. *)
Definition has_prop (h : list obj) (l : loc) (k : string) : bool :=
  bool_decide (is_Some (find_prop h l k)).

Definition set_prop (h : list obj) (l : loc) (k : string) (v : value)
  : list obj :=
  match h !! l with
  | Some o => <[l := Obj (proto o) (assoc_set k v (props o))]> h
  | None => h
  end.

Definition own_keys (h : list obj) (l : loc) : list string :=
  match h !! l with
  | Some o => List.map fst (props o)
  | None => []
  end.

(** [v[k]] for any value: reading from [undefined] or [null] is a type
    error; the named fields read here do not exist on the other
    non-object values. *)
Definition get_v (v : value) (k : string) : M value :=
  fun w =>
    match v with
    | VObj l => (Ok (get (heap w) l k), w)
    | VUndef | VNull =>
        (Throw (JsTypeError ("Cannot read property '" ++ k ++ "' of "
                             ++ to_string v)), w)
    | _ => (Ok VUndef, w)
    end.

(** [v[k] = x]. *)
Definition set_v (v : value) (k : string) (x : value) : M unit :=
  fun w =>
    match v with
    | VObj l => (Ok tt, World (set_prop (heap w) l k x) (cl w))
    | VUndef | VNull =>
        (Throw (JsTypeError ("Cannot set property '" ++ k ++ "' of "
                             ++ to_string v)), w)
    | _ => (Ok tt, w)
    end.

(** [k in v]: the right-hand side must be an object. *)
Definition in_v (k : string) (v : value) : M bool :=
  fun w =>
    match v with
    | VObj l => (Ok (has_prop (heap w) l k), w)
    | VArr _ | VFun _ => (Ok false, w)
    | _ =>
        (Throw (JsTypeError ("Cannot use 'in' operator to search for '"
                             ++ k ++ "' in " ++ to_string v)), w)
    end.

(** [Object.keys(v)]: own keys of an object in enumeration order. *)
Definition keys_v (v : value) : M (list string) :=
  fun w =>
    match v with
    | VObj l => (Ok (own_keys (heap w) l), w)
    | VUndef | VNull =>
        (Throw (JsTypeError "Cannot convert undefined or null to object"), w)
    | _ => (Ok [], w)
    end.

(** [Object.create(v)] followed by nothing else: a fresh object without
    own properties whose prototype is [v]. *)
Definition object_create (v : value) : M loc :=
  fun w =>
    match v with
    | VObj l => (Ok (length (heap w)),
                 World (heap w ++ [Obj (Some l) []]) (cl w))
    | VNull => (Ok (length (heap w)),
                World (heap w ++ [Obj None []]) (cl w))
    | _ => (Throw (JsTypeError
                     "Object prototype may only be an Object or null"), w)
    end.

(** [{}]: a fresh empty object. *)
Definition object_literal : M loc :=
  fun w => (Ok (length (heap w)), World (heap w ++ [Obj None []]) (cl w)).

(** ** Selector resolution *)

(** How a function value is applied: receiver, arguments, effect. *)
Definition applyT : Type := value -> this_arg -> list value -> M value.

Section Resolver.

Variable apply : applyT.

(** [convertSelector(elementObj, args)] *)
Definition convertSelector (elementObj : value) (args : list string)
  : M value :=
  let* sel := get_v elementObj "selector" in
  if negb (is_function sel) then
    let* name := get_v elementObj "name" in
    throw (JsError (to_string name ++
      " was called as a dynamic page object, but with no function type selector."))
  else
    let* finalObj := object_create elementObj in
    let* f := get_v (VObj finalObj) "selector" in
    let* r := apply f ThisNull (List.map VStr args) in
    let* _ := set_v (VObj finalObj) "selector" r in
    let* p := get_v elementObj "parent" in
    let* _ := set_v (VObj finalObj) "parent" p in
    ret (VObj finalObj).

(** [s.substring(1)] on an argument that need not be a string. *)
Definition strip_sigil (v : value) : M string :=
  match v with
  | VStr s => ret (JsString.substring1 1 s)
  | VUndef | VNull =>
      throw (JsTypeError ("Cannot read property 'substring' of "
                          ++ to_string v))
  | _ => throw (JsTypeError "substring is not a function")
  end.

(** The text of the not-found error of [getElement]. *)
Definition element_not_found (elementName : string) (parentName : value)
  (available : list string) : string :=
  elementName ++ " was not found in " ++ dquote ++ to_string parentName ++
  dquote ++ ". Available elements: " ++ JsString.join available.

(** [getElement(parent, elementName)] *)
Definition getElement (parent : loc) (elementName : value) : M value :=
  let* elementName := strip_sigil elementName in
  let* elements := get_v (VObj parent) "elements" in
  let* found := in_v elementName elements in
  if found then
    let* elements := get_v (VObj parent) "elements" in
    get_v elements elementName
  else
    let not_found (elementName : string) : M value :=
      let* parentName := get_v (VObj parent) "name" in
      let* elements := get_v (VObj parent) "elements" in
      let* available := keys_v elements in
      throw (JsError (element_not_found elementName parentName available))
    in
    if JsString.matches_param elementName then
      let args :=
        JsString.split ","%char
          (JsString.substring2
             (JsString.indexOf "<"%char elementName + 1)
             (JsString.lastIndexOf ">"%char elementName) elementName) in
      let elementName :=
        JsString.substring2 0 (JsString.indexOf "<"%char elementName)
          elementName in
      let* elements := get_v (VObj parent) "elements" in
      let* found := in_v elementName elements in
      if found then
        let* elements := get_v (VObj parent) "elements" in
        let* elementObj := get_v elements elementName in
        convertSelector elementObj args
      else not_found elementName
    else not_found elementName.

(** The text of the not-found error of [getSection]. *)
Definition section_not_found (sectionName : string) (parentName : value)
  (available : list string) : string :=
  sectionName ++ " was not found in " ++ dquote ++ to_string parentName ++
  dquote ++ ". Available sections: " ++ JsString.join available.

(** [getSection(parent, sectionName)] *)
Definition getSection (parent : loc) (sectionName : value) : M value :=
  let* sectionName := strip_sigil sectionName in
  let* section := get_v (VObj parent) "section" in
  let* found := in_v sectionName section in
  if negb found then
    let* parentName := get_v (VObj parent) "name" in
    let* sections := get_v (VObj parent) "sections" in
    let* available := keys_v sections in
    throw (JsError (section_not_found sectionName parentName available))
  else
    let* section := get_v (VObj parent) "section" in
    get_v section sectionName.

End Resolver.

(** ** Locate strategy *)

(** The literal [methodMap] of [setLocateStrategy]. *)
Definition methodMap (desiredStrategy : string) : option string :=
  if String.eqb desiredStrategy "xpath" then Some "useXpath"
  else if String.eqb desiredStrategy "css selector" then Some "useCss"
  else if String.eqb desiredStrategy "recursion" then Some "useRecursion"
  else None.

Definition enqueue (q : qitem) (w : world) : world :=
  World (heap w)
        (Client (locateStrategy (cl w)) (queue (cl w) ++ [q])
                (results_errors (cl w)) (errors (cl w))).

(** Modelled from the spec: the driver primitives [client.api.useXpath],
    [useCss] and [useRecursion], which are not part of this file. Each is
    a queued driver operation: calling it appends the switch to the
    command queue, and the switch takes effect when the queue reaches
    it. *)
Definition api_call (method : string) : M value :=
  if String.eqb method "useXpath" then
    let* _ := modify (enqueue (QSwitch "xpath")) in ret VUndef
  else if String.eqb method "useCss" then
    let* _ := modify (enqueue (QSwitch "css selector")) in ret VUndef
  else if String.eqb method "useRecursion" then
    let* _ := modify (enqueue (QSwitch "recursion")) in ret VUndef
  else throw (JsTypeError ("client.api." ++ method ++ " is not a function")).

(** [setLocateStrategy(client, desiredStrategy)] *)
Definition setLocateStrategy (desiredStrategy : value) : M unit :=
  match methodMap (to_string desiredStrategy) with
  | Some method => let* _ := api_call method in ret tt
  | None => ret tt
  end.

(** [parent.client.locateStrategy = v] *)
Definition assign_locateStrategy (v : value) (w : world) : world :=
  World (heap w)
        (Client v (queue (cl w)) (results_errors (cl w)) (errors (cl w))).

(** ** The command wrapper *)

(** [isElementCommand(args)] *)
Definition isElementCommand (args : list value) : M bool :=
  match args with
  | [] => ret false
  | (VUndef | VNull) as a :: _ =>
      throw (JsTypeError ("Cannot read property 'toString' of "
                          ++ to_string a))
  | a :: _ => ret (JsString.indexOf "@"%char (to_string a) =? 0)
  end.

(** [args[i]], [undefined] outside the array. *)
Definition arg_at (args : list value) (i : Z) : value :=
  if i <? 0 then VUndef else nth (Z.to_nat i) args VUndef.

(** [findCallbackIndex(args)] *)
Definition findCallbackIndex (args : list value) : Z :=
  if Z.of_nat (length args) =? 0 then -1
  else
    let index := Z.of_nat (length args) - 1 in
    if is_function (arg_at args index) then index
    else
      let index := index - 1 in
      if is_function (arg_at args index) then index
      else -1.

(** The recursion [addElement] inside [getAncestorsWithElement];
    [depth] is the room left on the call stack. *)
Fixpoint addElement (depth : nat) (e : value) (elements : list value)
  : M (list value) :=
  match depth with
  | O => throw (JsRangeError "Maximum call stack size exceeded")
  | S d =>
      let elements := e :: elements in
      let* p := get_v e "parent" in
      if truthy p then
        let* s := get_v p "selector" in
        if truthy s then addElement d p elements else ret elements
      else ret elements
  end.

(** [getAncestorsWithElement(element)] *)
Definition getAncestorsWithElement (depth : nat) (element : value)
  : M (list value) :=
  addElement depth element [].

Section Wrapper.

Variable apply : applyT.

(** The closure [callbackWrapper] created by a wrapped command. *)
Definition callbackWrapper (prevLocateStrategy originalCallback : value)
  (arguments : list value) : M value :=
  let* _ := modify (assign_locateStrategy prevLocateStrategy) in
  apply originalCallback ThisApi arguments.

(** Lines 124-139: a callback found by the scan is replaced by its
    wrapper. *)
Definition wrapCallback (prevLocateStrategy : value) (args : list value)
  : list value :=
  let callbackIndex := findCallbackIndex args in
  if negb (callbackIndex =? -1) then
    let originalCallback := arg_at args callbackIndex in
    <[Z.to_nat callbackIndex :=
        VFun (CallbackWrapper prevLocateStrategy originalCallback)]> args
  else args.

(** Lines 100-139: the argument processing of a targeted invocation. It
    yields the arguments for the underlying command. *)
Definition targetArguments (depth : nat) (parent : loc)
  (commandName : string) (isChaiAssertion : bool)
  (prevLocateStrategy : value) (args : list value) : M (list value) :=
  let elementOrSectionName := hd VUndef args in
  let args := tl args in
  let getter :=
    if isChaiAssertion && String.eqb commandName "section"
    then getSection else getElement apply in
  let* elementOrSection := getter parent elementOrSectionName in
  let* ancestors := getAncestorsWithElement depth elementOrSection in
  let* target :=
    if Z.of_nat (length ancestors) =? 1 then
      let* firstArg := get_v elementOrSection "selector" in
      let* desiredStrategy := get_v elementOrSection "locateStrategy" in
      ret (firstArg, desiredStrategy)
    else ret (VArr ancestors, VStr "recursion") in
  let* _ := setLocateStrategy (snd target) in
  let args := fst target :: args in
  ret (wrapCallback prevLocateStrategy args).

(** The function that [makeWrappedCommand] returns, applied to [args]. *)
Definition wrapped (depth : nat) (parent : loc) (commandFn : value)
  (commandName : string) (isChaiAssertion : bool) (args : list value)
  : M value :=
  let* prevLocateStrategy := gets (fun w => locateStrategy (cl w)) in
  let* elementCommand := isElementCommand args in
  let* args :=
    if elementCommand
    then targetArguments depth parent commandName isChaiAssertion
           prevLocateStrategy args
    else ret args in
  let* c := apply commandFn ThisClient args in
  let* _ :=
    if elementCommand then setLocateStrategy prevLocateStrategy
    else ret tt in
  ret (if isChaiAssertion then c else VObj parent).

End Wrapper.

(** [makeWrappedCommand(parent, commandFn, commandName, isChaiAssertion)] *)
Definition makeWrappedCommand (parent : loc) (commandFn : value)
  (commandName : string) (isChaiAssertion : bool) : value :=
  VFun (WrappedCommand parent commandFn commandName isChaiAssertion).

(** ** Calling function values *)

Section Call.

(** The functions supplied from outside. Each receives the means to
    call the function values among its arguments. *)
Variable native : nat -> applyT -> this_arg -> list value -> M value.

(** [f.apply(this, args)]; [depth] is the room left on the call stack. *)
Fixpoint call (depth : nat) (f : value) (this : this_arg)
  (args : list value) : M value :=
  match depth with
  | O => throw (JsRangeError "Maximum call stack size exceeded")
  | S d =>
      match f with
      | VFun (Native id) => native id (call d) this args
      | VFun (CallbackWrapper prev orig) =>
          callbackWrapper (call d) prev orig args
      | VFun (WrappedCommand parent commandFn commandName isChai) =>
          wrapped (call d) d parent commandFn commandName isChai args
      | _ => throw (JsTypeError (to_string f ++ " is not a function"))
      end
  end.

End Call.

(** ** Registration *)

(** [xs.forEach(f)]: an exception ends the iteration. *)
Fixpoint forEach {A} (xs : list A) (f : A -> M unit) : M unit :=
  match xs with
  | [] => ret tt
  | x :: rest => let* _ := f x in forEach rest f
  end.

Definition already_defined (commandName : string) : string :=
  "The command " ++ dquote ++ commandName ++ dquote ++
  " is already defined!".

(** [error.stack]: the header line of the trace; the frames that follow
    it depend on the engine and are left out. *)
Definition error_stack (msg : string) : string := "Error: " ++ msg.

Definition count_error (w : world) : world :=
  World (heap w)
        (Client (locateStrategy (cl w)) (queue (cl w))
                (results_errors (cl w) + 1) (errors (cl w))).

Definition push_error (stack : string) (w : world) : world :=
  World (heap w)
        (Client (locateStrategy (cl w)) (queue (cl w))
                (results_errors (cl w)) (errors (cl w) ++ [stack])).

(** [addCommand(target, commandFn, commandName, parent, isChaiAssertion)] *)
Definition addCommand (target : value) (commandFn : value)
  (commandName : string) (parent : loc) (isChaiAssertion : bool)
  : M value :=
  let* existing := get_v target commandName in
  if truthy existing then
    let* _ := modify count_error in
    let error := already_defined commandName in
    let* _ := modify (push_error (error_stack error)) in
    throw (JsError error)
  else ret (makeWrappedCommand parent commandFn commandName isChaiAssertion).

(** [isValidAssertion(commandName)] *)
Definition isValidAssertion (commandName : string) : bool :=
  String.eqb commandName "assert" || String.eqb commandName "verify"
  || String.eqb commandName "expect".

(** The body of the outer [forEach] of [applyCommandsToTarget]. *)
Definition applyCommand (parent : loc) (target commands : value)
  (commandName : string) : M unit :=
  if isValidAssertion commandName then
    let* current := get_v target commandName in
    let* group :=
      if truthy current then ret current
      else let* l := object_literal in ret (VObj l) in
    let* _ := set_v target commandName group in
    let isChaiAssertion := String.eqb commandName "expect" in
    let* assertions := get_v commands commandName in
    let* names := keys_v assertions in
    forEach names (fun assertionName =>
      let* slotOwner := get_v target commandName in
      let* group := get_v target commandName in
      let* fn := get_v assertions assertionName in
      let* c := addCommand group fn assertionName parent isChaiAssertion in
      set_v slotOwner assertionName c)
  else
    let* fn := get_v commands commandName in
    let* c := addCommand target fn commandName parent false in
    set_v target commandName c.

(** [applyCommandsToTarget(parent, target, commands)] *)
Definition applyCommandsToTarget (parent : loc) (target commands : value)
  : M unit :=
  let* names := keys_v commands in
  forEach names (applyCommand parent target commands).

(** [addWrappedCommands(parent, commandLoader)] *)
Definition addWrappedCommands (apply : applyT) (parent : loc)
  (commandLoader : value) : M unit :=
  let* commands := object_literal in
  let* commands := apply commandLoader ThisNull [VObj commands] in
  applyCommandsToTarget parent (VObj parent) commands.

(** ** The command queue *)




(** ** The ancestor chain, as the specification words it *)

(** [v[k]] where nothing can be thrown. *)
Definition field (h : list obj) (v : value) (k : string) : value :=
  match v with
  | VObj l => get h l k
  | _ => VUndef
  end.

(** The parent to follow from [e]: there is one exactly when [e] has a
    parent and that parent has a selector. *)
Definition container_of (h : list obj) (e : value) : option value :=
  let p := field h e "parent" in
  if truthy p && truthy (field h p "selector") then Some p else None.

(** [ancestors_of h target chain]: [chain] runs from the outermost
    container down to and including [target]. *)
Inductive ancestors_of (h : list obj) : value -> list value -> Prop :=
| ancestors_outermost e :
    container_of h e = None -> ancestors_of h e [e]
| ancestors_inside e p chain :
    container_of h e = Some p ->
    ancestors_of h p chain ->
    ancestors_of h e (chain ++ [e]).

(** An element or a section is some value to read fields from. *)
Definition readable (v : value) : Prop := v <> VUndef /\ v <> VNull.

(** ** What a strategy switch leaves behind *)

(** The world after [setLocateStrategy(client, v)]: a recognised
    strategy is queued, any other value changes nothing. *)
Definition switch_to (v : value) (w : world) : world :=
  match methodMap (to_string v) with
  | Some _ => enqueue (QSwitch (to_string v)) w
  | None => w
  end.

(** The first argument and the strategy of a targeted invocation, from
    the resolved target and its chain (lines 109-115). *)
Definition effective_target (h : list obj) (e : value) (chain : list value)
  : value * value :=
  if Z.of_nat (length chain) =? 1
  then (field h e "selector", field h e "locateStrategy")
  else (VArr chain, VStr "recursion").

(** How a wrapped command ends once the underlying command is back
    (lines 142-146) in a targeted invocation. *)
Definition finish_targeted (parent : loc) (isChaiAssertion : bool)
  (prevLocateStrategy : value) (r : outcome value * world)
  : outcome value * world :=
  match r with
  | (Ok c, w2) =>
      (Ok (if isChaiAssertion then c else VObj parent),
       switch_to prevLocateStrategy w2)
  | (Throw e, w2) => (Throw e, w2)
  end.

(** The resolver a wrapped command uses (line 105). *)
Definition getter (apply : applyT) (commandName : string)
  (isChaiAssertion : bool) : loc -> value -> M value :=
  if isChaiAssertion && String.eqb commandName "section"
  then getSection else getElement apply.

(** ** Arguments that make a passthrough call *)



(** ** What a registered group of assertions looks like *)


(** ** A sample page *)

Module Sample.

(** A page with a plain element, a dynamic element, an element whose
    own name has the parameter shape, a section with a logo, and a
    second section inside the first with a button. The page keeps its
    sections under [section] and has no [sections] property. *)
Definition objects : list obj :=
  [ Obj None [("name", VStr "page"); ("elements", VObj 1%nat);
              ("section", VObj 2%nat)];
    Obj None [("submitButton", VObj 3%nat); ("row", VObj 4%nat);
              ("row<x>", VObj 8%nat)];
    Obj None [("header", VObj 5%nat)];
    Obj None [("name", VStr "submitButton"); ("selector", VStr "#submit");
              ("locateStrategy", VStr "css selector");
              ("parent", VObj 0%nat)];
    Obj None [("name", VStr "row"); ("selector", VFun (Native 0));
              ("locateStrategy", VStr "css selector");
              ("parent", VObj 0%nat)];
    Obj None [("name", VStr "header"); ("selector", VStr "#header");
              ("locateStrategy", VStr "css selector");
              ("parent", VObj 0%nat); ("elements", VObj 6%nat);
              ("section", VObj 12%nat)];
    Obj None [("logo", VObj 7%nat)];
    Obj None [("name", VStr "logo"); ("selector", VStr ".logo");
              ("locateStrategy", VStr "css selector");
              ("parent", VObj 5%nat)];
    Obj None [("name", VStr "row<x>"); ("selector", VStr "#literal");
              ("locateStrategy", VStr "xpath"); ("parent", VObj 0%nat)];
    Obj None [("name", VStr "nav"); ("selector", VStr "#nav");
              ("locateStrategy", VStr "css selector");
              ("parent", VObj 5%nat); ("elements", VObj 10%nat)];
    Obj None [("button", VObj 11%nat)];
    Obj None [("name", VStr "button"); ("selector", VStr "#go");
              ("locateStrategy", VStr "css selector");
              ("parent", VObj 9%nat)];
    Obj None [("nav", VObj 9%nat)] ].

Definition start (strategy : value) : world :=
  World objects (Client strategy [] 0 []).

(** Functions from outside the file:
    0 a selector function, which prints its arguments into a selector;
    1 a driver command that queues its work and returns at once; the
      queued work ends by calling the function among its arguments, if
      there is one;
    2 a callback that notes the strategy it observes in the error log;
    any other number does nothing. *)
Definition natives (id : nat) (ap : applyT) (this : this_arg)
  (args : list value) : M value :=
  match id with
  | 0%nat => ret (VStr ("#row-" ++ JsString.join (List.map to_string args)))
  | 1%nat =>
      let i := findCallbackIndex args in
      if i =? -1 then ret VUndef
      else let* _ := modify (enqueue (QCall (arg_at args i) [])) in
           ret VUndef
  | 2%nat =>
      let* s := gets (fun w => locateStrategy (cl w)) in
      let* _ := modify (push_error (to_string s)) in
      ret VUndef
  | _ => ret VUndef
  end.

(** The sample page with a catalog holding one command, before and
    after the catalog is registered on the page. *)
Definition unregistered : world :=
  World (objects ++ [Obj None [("click", VFun (Native 1))]])
        (Client (VStr "xpath") [] 0 []).

Definition registered : world := Eval vm_compute in
    World (set_prop (heap unregistered) 0%nat "click"
             (VFun (WrappedCommand 0%nat (VFun (Native 1)) "click" false)))
          (cl unregistered).

End Sample.

(** * Properties *)

(** ** Strings: the parameter syntax *)

Module JsStringFacts.
Import JsString.

Lemma len_cons a s : len (String a s) = len s + 1.
Proof. unfold len. cbn [String.length]. lia. Qed.

Lemma len_nonneg s : 0 <= len s.
Proof. unfold len. lia. Qed.

Lemma len_app a b : len (a ++ b) = len a + len b.
Proof.
  induction a as [|c a IH]; cbn [String.append].
  - unfold len. cbn. lia.
  - rewrite !len_cons, IH. lia.
Qed.

Lemma append_assoc a b c : (a ++ b) ++ c = a ++ (b ++ c).
Proof. induction a as [|x a IH]; cbn; [reflexivity | now rewrite IH]. Qed.

Lemma substring_0_length s : String.substring 0 (String.length s) s = s.
Proof. induction s as [|a s IH]; cbn; [reflexivity | now rewrite IH]. Qed.

Lemma substring_0_app a r :
  String.substring 0 (String.length a) (a ++ r) = a.
Proof.
  induction a as [|c a IH]; cbn.
  - now destruct r.
  - now rewrite IH.
Qed.

Lemma substring_skip a m r :
  String.substring (String.length a) m (a ++ r) = String.substring 0 m r.
Proof. induction a as [|c a IH]; cbn; [reflexivity | exact IH]. Qed.

Lemma indexOf_from_app c name rest i :
  all_chars (is_not c) name = true ->
  indexOf_from c (name ++ String c rest) i = i + len name.
Proof.
  revert i. induction name as [|a name IH]; intros i H; cbn in *.
  - rewrite Ascii.eqb_refl. unfold len. cbn. lia.
  - apply andb_prop in H as [Ha Hn]. unfold is_not in Ha.
    apply negb_true_iff in Ha. rewrite Ha, IH by assumption.
    rewrite len_cons. lia.
Qed.

Lemma lastIndexOf_from_end c s i acc :
  lastIndexOf_from c (s ++ String c EmptyString) i acc = i + len s.
Proof.
  revert i acc. induction s as [|a s IH]; intros i acc; cbn.
  - rewrite Ascii.eqb_refl. unfold len. cbn. lia.
  - rewrite IH, len_cons. lia.
Qed.

Lemma dot_star_gt_end_app body :
  all_chars (fun a => negb (is_line_terminator a)) body = true ->
  dot_star_gt_end (body ++ ">") = true.
Proof.
  induction body as [|a body IH]; intros H; cbn in *; [reflexivity|].
  apply andb_prop in H as [Ha Hb].
  destruct (body ++ ">") eqn:E.
  - destruct body; discriminate.
  - rewrite Ha. cbn. apply IH, Hb.
Qed.

Lemma param_from_true name rest :
  all_chars (is_not "<"%char) name = true ->
  dot_star_gt_end rest = true ->
  param_from true (name ++ String "<"%char rest) = true.
Proof.
  intros Hn Hr. induction name as [|a name IH]; cbn in *.
  - now rewrite Hr.
  - apply andb_prop in Hn as [Ha Hn]. unfold is_not in Ha.
    rewrite Ha. rewrite (IH Hn). apply orb_true_r.
Qed.

Lemma reference_matches name body :
  well_formed_reference name body = true ->
  matches_param (reference name body) = true.
Proof.
  unfold well_formed_reference, reference, matches_param. intros H.
  apply andb_prop in H as [H Hb]. apply andb_prop in H as [Hne Hn].
  destruct name as [|a name]; [discriminate|].
  cbn in Hn. apply andb_prop in Hn as [Ha Hn]. unfold is_not in Ha.
  cbn [String.append param_from]. rewrite Ha.
  change ("<" ++ body ++ ">") with (String "<"%char (body ++ ">")).
  rewrite param_from_true; auto using dot_star_gt_end_app, orb_true_r.
Qed.

Lemma reference_indexOf name body :
  well_formed_reference name body = true ->
  indexOf "<"%char (reference name body) = len name.
Proof.
  unfold well_formed_reference, reference, indexOf. intros H.
  apply andb_prop in H as [H _]. apply andb_prop in H as [_ Hn].
  change ("<" ++ body ++ ">") with (String "<"%char (body ++ ">")).
  rewrite indexOf_from_app by assumption. lia.
Qed.

Lemma reference_lastIndexOf name body :
  lastIndexOf ">"%char (reference name body) = len name + 1 + len body.
Proof.
  unfold reference, lastIndexOf.
  replace (name ++ "<" ++ body ++ ">")
    with ((name ++ "<" ++ body) ++ String ">"%char EmptyString).
  - rewrite lastIndexOf_from_end, !len_app. unfold len at 2. cbn. lia.
  - rewrite !append_assoc. reflexivity.
Qed.

Lemma reference_len name body :
  len (reference name body) = len name + len body + 2.
Proof. unfold reference. rewrite !len_app. unfold len at 2 4. cbn. lia. Qed.

(** The name part, as [getElement] cuts it out. *)
Lemma reference_name name body :
  well_formed_reference name body = true ->
  substring2 0 (indexOf "<"%char (reference name body)) (reference name body)
  = name.
Proof.
  intros H. rewrite reference_indexOf by assumption.
  unfold substring2, clamp. rewrite reference_len.
  pose proof (len_nonneg name). pose proof (len_nonneg body).
  match goal with
  | |- String.substring ?a ?b _ = _ =>
      replace a with 0%nat by lia;
      replace b with (String.length name) by (unfold len in *; lia)
  end.
  apply substring_0_app.
Qed.

(** The argument part, as [getElement] cuts it out. *)
Lemma reference_body name body :
  well_formed_reference name body = true ->
  substring2 (indexOf "<"%char (reference name body) + 1)
    (lastIndexOf ">"%char (reference name body)) (reference name body)
  = body.
Proof.
  intros H. rewrite reference_indexOf, reference_lastIndexOf by assumption.
  unfold substring2, clamp. rewrite reference_len.
  pose proof (len_nonneg name). pose proof (len_nonneg body).
  pose proof (len_app name "<") as L. unfold len in L. cbn in L.
  match goal with
  | |- String.substring ?a ?b _ = _ =>
      replace a with (String.length (name ++ "<")) by (unfold len in *; lia);
      replace b with (String.length body) by (unfold len in *; lia)
  end.
  unfold reference.
  replace (name ++ "<" ++ body ++ ">") with ((name ++ "<") ++ body ++ ">")
    by (rewrite append_assoc; reflexivity).
  rewrite substring_skip. apply substring_0_app.
Qed.

Lemma split_no_sep c x :
  all_chars (is_not c) x = true -> split c x = [x].
Proof.
  induction x as [|a x IH]; intros H; cbn in *; [reflexivity|].
  apply andb_prop in H as [Ha Hx]. unfold is_not in Ha.
  apply negb_true_iff in Ha. rewrite Ha, (IH Hx). reflexivity.
Qed.

Lemma split_app c x rest :
  all_chars (is_not c) x = true ->
  split c (x ++ String c rest) = x :: split c rest.
Proof.
  induction x as [|a x IH]; intros H; cbn in *.
  - now rewrite Ascii.eqb_refl.
  - apply andb_prop in H as [Ha Hx]. unfold is_not in Ha.
    apply negb_true_iff in Ha. rewrite Ha, (IH Hx). reflexivity.
Qed.

(** Splitting the printed argument list gives the arguments back. *)
Lemma split_join args :
  args <> [] ->
  forallb (all_chars (is_not ","%char)) args = true ->
  split ","%char (join args) = args.
Proof.
  induction args as [|x args IH]; intros Hne H; [congruence|].
  cbn [forallb] in H. apply andb_prop in H as [Hx Hr].
  destruct args as [|y args].
  - cbn [join]. now apply split_no_sep.
  - change (join (x :: y :: args)) with (x ++ String ","%char (join (y :: args))).
    rewrite split_app by assumption. rewrite IH; [reflexivity|congruence|assumption].
Qed.

Lemma substring1_sigil a s : substring1 1 (String a s) = s.
Proof.
  unfold substring1, substring2, clamp. rewrite len_cons.
  pose proof (len_nonneg s).
  match goal with
  | |- String.substring ?a ?b _ = _ =>
      replace a with 1%nat by lia;
      replace b with (String.length s) by (unfold len in *; lia)
  end.
  cbn. apply substring_0_length.
Qed.


Lemma dot_star_gt_end_inv s :
  dot_star_gt_end s = true ->
  exists body, s = body ++ ">" /\ no_line_break body = true.
Proof.
  induction s as [|a s IH]; cbn; [discriminate|].
  destruct s as [|b s].
  - intros H. apply Ascii.eqb_eq in H. subst a. now exists EmptyString.
  - intros H. apply andb_prop in H as [Ha Hs].
    destruct (IH Hs) as (body & -> & Hb).
    exists (String a body). split; [reflexivity|].
    unfold no_line_break in *. cbn. now rewrite Ha.
Qed.

Lemma param_from_intro prev pre c rest :
  Ascii.eqb c "<"%char = false ->
  dot_star_gt_end rest = true ->
  param_from prev (pre ++ String c (String "<"%char rest)) = true.
Proof.
  intros Hc Hr. revert prev. induction pre as [|a pre IH]; intros prev; cbn.
  - rewrite Hc, Hr. cbn. apply orb_true_r.
  - rewrite IH. apply orb_true_r.
Qed.

Lemma param_from_inv s :
  forall prev, param_from prev s = true ->
  (prev = true /\ exists rest, s = String "<"%char rest
                             /\ dot_star_gt_end rest = true)
  \/ exists pre c rest,
       s = pre ++ String c (String "<"%char rest)
       /\ Ascii.eqb c "<"%char = false
       /\ dot_star_gt_end rest = true.
Proof.
  induction s as [|a s IH]; intros prev H; cbn in H; [discriminate|].
  apply orb_prop in H as [H|H].
  - apply andb_prop in H as [H Hr]. apply andb_prop in H as [Hp Ha].
    apply Ascii.eqb_eq in Ha. subst a. left. split; [assumption|].
    now exists s.
  - right. apply IH in H as [[Hp (rest & -> & Hr)] | (pre & c & rest & -> & Hc & Hr)].
    + apply negb_true_iff in Hp. now exists EmptyString, a, rest.
    + now exists (String a pre), c, rest.
Qed.

(** The pattern [/[^<]+<.*>$/] matches exactly the strings that hold a
    character other than ["<"], then ["<"], then any text without line
    break, then a final [">"]. *)
Lemma matches_param_iff s :
  matches_param s = true <->
  exists pre c body,
    s = pre ++ String c (String "<"%char (body ++ ">"))
    /\ c <> "<"%char /\ no_line_break body = true.
Proof.
  unfold matches_param. split.
  - intros H. apply param_from_inv in H as [[Hp _] | (pre & c & rest & -> & Hc & Hr)];
      [discriminate|].
    apply dot_star_gt_end_inv in Hr as (body & -> & Hb).
    exists pre, c, body. repeat split; [|assumption].
    intros ->. now rewrite Ascii.eqb_refl in Hc.
  - intros (pre & c & body & -> & Hc & Hb).
    apply param_from_intro.
    + now apply Ascii.eqb_neq.
    + now apply dot_star_gt_end_app.
Qed.

End JsStringFacts.

(** ** The heap *)

Lemma assoc_set_same k v ps : assoc k (assoc_set k v ps) = Some v.
Proof.
  induction ps as [|[k' v'] ps IH]; cbn.
  - now rewrite String.eqb_refl.
  - destruct (String.eqb k' k) eqn:E; cbn.
    + now rewrite String.eqb_refl.
    + now rewrite E.
Qed.

Lemma assoc_set_other k k' v ps :
  k <> k' -> assoc k' (assoc_set k v ps) = assoc k' ps.
Proof.
  intros Hne. induction ps as [|[k0 v0] ps IH]; cbn.
  - destruct (String.eqb k k') eqn:E; [|reflexivity].
    apply String.eqb_eq in E. contradiction.
  - destruct (String.eqb k0 k) eqn:E; cbn.
    + apply String.eqb_eq in E. subst k0.
      destruct (String.eqb k k') eqn:E'; [|reflexivity].
      apply String.eqb_eq in E'. contradiction.
    + now rewrite IH.
Qed.

Lemma has_prop_true h l k v : find_prop h l k = Some v -> has_prop h l k = true.
Proof. unfold has_prop. intros ->. now apply bool_decide_eq_true. Qed.

Lemma has_prop_find h l k :
  has_prop h l k = true -> find_prop h l k = Some (get h l k).
Proof.
  unfold has_prop, get. intros H. apply bool_decide_eq_true in H as [v ->].
  reflexivity.
Qed.

Lemma get_find h l k v : find_prop h l k = Some v -> get h l k = v.
Proof. unfold get. now intros ->. Qed.

Lemma find_get_fun h l k f : get h l k = VFun f -> find_prop h l k = Some (VFun f).
Proof. unfold get. destruct (find_prop h l k); cbn; congruence. Qed.

(** A successful lookup is stable when the heap grows at its end and
    when the bound on the walk grows. *)
Lemma lookup_prop_grow n m h t l k v :
  lookup_prop n h l k = Some v ->
  lookup_prop (n + m) (h ++ t) l k = Some v.
Proof.
  revert l. induction n as [|n IH]; intros l H; cbn in *; [discriminate|].
  destruct (h !! l) as [o|] eqn:E; [|discriminate].
  rewrite (lookup_app_l_Some _ _ _ _ E).
  destruct (assoc k (props o)); [assumption|].
  destruct (proto o); [auto|discriminate].
Qed.

Lemma lookup_prop_S n h l k :
  lookup_prop (S n) h l k =
  match h !! l with
  | None => None
  | Some o =>
      match assoc k (props o) with
      | Some v => Some v
      | None =>
          match proto o with
          | Some p => lookup_prop n h p k
          | None => None
          end
      end
  end.
Proof. reflexivity. Qed.

(** A fresh object created from [b] reads what [b] reads. *)
Lemma find_prop_created h b k v :
  find_prop h b k = Some v ->
  find_prop (h ++ [Obj (Some b) []]) (length h) k = Some v.
Proof.
  unfold find_prop. intros H.
  rewrite length_app. cbn [length]. replace (length h + 1)%nat with (S (length h)) by lia.
  rewrite lookup_prop_S, list_lookup_middle by reflexivity.
  cbn [props proto assoc].
  replace (S (length h)) with (S (length h) + 0)%nat at 1 by lia.
  now apply lookup_prop_grow.
Qed.

Lemma set_prop_length h l k v : length (set_prop h l k v) = length h.
Proof. unfold set_prop. destruct (h !! l); [apply length_insert | reflexivity]. Qed.

(** An assigned property is an own property. *)
Lemma find_prop_set_same h l k v :
  (l < length h)%nat -> find_prop (set_prop h l k v) l k = Some v.
Proof.
  intros Hl. unfold find_prop. rewrite set_prop_length, lookup_prop_S.
  destruct (lookup_lt_is_Some_2 h l Hl) as [o E].
  unfold set_prop. rewrite E.
  rewrite list_lookup_insert_eq by assumption.
  cbn [props]. now rewrite assoc_set_same.
Qed.

Lemma set_prop_lookup_same h l k v o :
  h !! l = Some o ->
  set_prop h l k v !! l = Some (Obj (proto o) (assoc_set k v (props o))).
Proof.
  intros E. unfold set_prop. rewrite E.
  apply list_lookup_insert_eq. eapply lookup_lt_Some; eauto.
Qed.

Lemma set_prop_invalid h l k v : h !! l = None -> set_prop h l k v = h.
Proof. intros E. unfold set_prop. now rewrite E. Qed.

(** Assignment to one object leaves every other object as it is. *)
Lemma set_prop_other h l k v l0 :
  l <> l0 -> set_prop h l k v !! l0 = h !! l0.
Proof.
  intros Hne. unfold set_prop. destruct (h !! l); [|reflexivity].
  now apply list_lookup_insert_ne.
Qed.

(** Assigning one key leaves every lookup of another key alone. *)
Lemma lookup_prop_set_other n h l k v l0 k' :
  k <> k' -> lookup_prop n (set_prop h l k v) l0 k' = lookup_prop n h l0 k'.
Proof.
  intros Hne. revert l0. induction n as [|n IH]; intros l0; [reflexivity|].
  rewrite !lookup_prop_S.
  destruct (decide (l = l0)) as [->|Hl].
  - destruct (h !! l0) as [o|] eqn:E.
    + rewrite (set_prop_lookup_same _ _ _ _ _ E). cbn [props proto].
      rewrite assoc_set_other by assumption.
      destruct (assoc k' (props o)); [reflexivity|].
      destruct (proto o); [apply IH | reflexivity].
    + rewrite set_prop_invalid by assumption. now rewrite E.
  - rewrite set_prop_other by assumption.
    destruct (h !! l0) as [o|]; [|reflexivity].
    destruct (assoc k' (props o)); [reflexivity|].
    destruct (proto o); [apply IH | reflexivity].
Qed.

Lemma get_set_other h l k v l0 k' :
  k <> k' -> get (set_prop h l k v) l0 k' = get h l0 k'.
Proof.
  intros Hne. unfold get, find_prop.
  now rewrite set_prop_length, lookup_prop_set_other.
Qed.


(** ** Selector resolution *)

Ltac run_resolver :=
  unfold getElement, getSection, convertSelector, strip_sigil, bind, ret,
    throw, get_v, in_v, keys_v, set_v, object_create;
  cbv beta iota zeta.

Section ResolverFacts.

Variable apply : applyT.
Import JsString JsStringFacts.

(** C10. When the elements of the container have a key equal to the
    whole token after the sigil, even one with the parameter shape,
    [getElement] returns that element as it is: nothing is parsed, no
    selector function is applied (the result does not depend on how
    functions are applied) and the world is unchanged. The parameter
    syntax is looked at only when this first lookup fails. *)
Theorem getElement_direct_lookup_first parent E token w :
  get (heap w) parent "elements" = VObj E ->
  has_prop (heap w) E (substring1 1 token) = true ->
  getElement apply parent (VStr token) w
  = (Ok (get (heap w) E (substring1 1 token)), w).
Proof.
  intros HE Hin. run_resolver. rewrite HE. cbv beta iota. rewrite Hin.
  rewrite HE. reflexivity.
Qed.

(** C5. An element whose selector is not a function, referenced with
    the parameter syntax [e<x>], makes [getElement] throw the error
    "... was called as a dynamic page object, but with no function type
    selector." at once, and the world, so every field of the element,
    is what it was. *)
Theorem parameterized_reference_needs_function parent E e name body w :
  well_formed_reference name body = true ->
  get (heap w) parent "elements" = VObj E ->
  has_prop (heap w) E (reference name body) = false ->
  find_prop (heap w) E name = Some (VObj e) ->
  is_function (get (heap w) e "selector") = false ->
  getElement apply parent (VStr (String "@"%char (reference name body))) w
  = (Throw (JsError (to_string (get (heap w) e "name") ++
       " was called as a dynamic page object, but with no function type selector.")),
     w).
Proof.
  intros Hwf HE Hdirect Hbase Hsel.
  run_resolver. rewrite substring1_sigil, HE. cbv beta iota.
  rewrite Hdirect, (reference_matches _ _ Hwf), (reference_name _ _ Hwf).
  rewrite HE. cbv beta iota.
  rewrite (has_prop_true _ _ _ _ Hbase). rewrite HE. cbv beta iota.
  rewrite (get_find _ _ _ _ Hbase).
  cbv beta iota. rewrite Hsel. reflexivity.
Qed.


(** The not-found error of [getElement]: a name that is neither a key
    of the elements nor of the parameter shape is reported with the
    keys of the elements. *)
Lemma getElement_not_found parent E token w :
  get (heap w) parent "elements" = VObj E ->
  has_prop (heap w) E (substring1 1 token) = false ->
  matches_param (substring1 1 token) = false ->
  getElement apply parent (VStr token) w
  = (Throw (JsError (element_not_found (substring1 1 token)
                       (get (heap w) parent "name")
                       (own_keys (heap w) E))), w).
Proof.
  intros HE Hin Hm. run_resolver. rewrite HE. cbv beta iota.
  rewrite Hin, Hm. rewrite HE. reflexivity.
Qed.

End ResolverFacts.

(** The not-found path of [getSection]: the name is looked up in
    [parent.section], the names listed are those of
    [parent.sections]. *)
Lemma getSection_not_found parent S token w :
  get (heap w) parent "section" = VObj S ->
  has_prop (heap w) S (JsString.substring1 1 token) = false ->
  getSection parent (VStr token) w
  = match keys_v (get (heap w) parent "sections") w with
    | (Ok available, _) =>
        (Throw (JsError (section_not_found (JsString.substring1 1 token)
                           (get (heap w) parent "name") available)), w)
    | (Throw ex, _) => (Throw ex, w)
    end.
Proof.
  intros HS Hin. run_resolver. rewrite HS. cbv beta iota. rewrite Hin.
  cbn [negb].
  destruct (get (heap w) parent "sections"); reflexivity.
Qed.

(** C9. On the sample page, whose sections are kept under [section],
    looking up a section that does not exist does not end in the
    not-found error listing the available sections: the list is taken
    from the property [sections], which the page does not have, and a
    type error is thrown instead. *)
Theorem getSection_missing_section_type_error :
  getSection 0%nat (VStr "@footer") (Sample.start (VStr "css selector"))
  = (Throw (JsTypeError "Cannot convert undefined or null to object"),
     Sample.start (VStr "css selector")).
Proof. reflexivity. Qed.

Lemma getElement_direct_lookup_first_sample :
  getElement (fun _ _ _ => ret VUndef) 0%nat (VStr "@row<x>")
    (Sample.start (VStr "css selector"))
  = (Ok (VObj 8%nat), Sample.start (VStr "css selector")).
Proof.
  apply (getElement_direct_lookup_first (fun _ _ _ => ret VUndef)
           0%nat 1%nat "@row<x>" (Sample.start (VStr "css selector")));
    reflexivity.
Defined.

Lemma parameterized_reference_needs_function_sample :
  getElement (fun _ _ _ => ret VUndef) 0%nat (VStr "@submitButton<x>")
    (Sample.start (VStr "css selector"))
  = (Throw (JsError
       "submitButton was called as a dynamic page object, but with no function type selector."),
     Sample.start (VStr "css selector")).
Proof.
  apply (parameterized_reference_needs_function (fun _ _ _ => ret VUndef)
           0%nat 1%nat 3%nat "submitButton" "x"
           (Sample.start (VStr "css selector")));
    reflexivity.
Defined.


(** ** The ancestor chain *)

Lemma get_v_field v k w :
  readable v -> get_v v k w = (Ok (field (heap w) v k), w).
Proof. intros [H1 H2]. destruct v; try reflexivity; congruence. Qed.

Lemma truthy_readable v : truthy v = true -> readable v.
Proof. destruct v; cbn; intros H; split; congruence. Qed.

Lemma container_of_Some h e p :
  container_of h e = Some p ->
  p = field h e "parent" /\ truthy p = true
  /\ truthy (field h p "selector") = true.
Proof.
  unfold container_of. intros H.
  destruct (truthy (field h e "parent")) eqn:T1; [|discriminate].
  destruct (truthy (field h (field h e "parent") "selector")) eqn:T2;
    [|discriminate].
  cbn in H. injection H as <-. auto.
Qed.

Lemma ancestors_of_last h e chain :
  ancestors_of h e chain -> (1 <= length chain)%nat /\ last chain = Some e.
Proof.
  intros H. destruct H as [e H | e p chain H1 H2].
  - split; [cbn; lia | reflexivity].
  - rewrite length_app. cbn. split; [lia | apply last_snoc].
Qed.

(** The outermost entry has no container to follow. *)
Lemma ancestors_of_head h e chain :
  ancestors_of h e chain ->
  exists top rest, chain = top :: rest /\ container_of h top = None.
Proof.
  induction 1 as [e H | e p chain H1 H2 IH].
  - now exists e, [].
  - destruct IH as (top & rest & -> & Htop).
    now exists top, (rest ++ [e])%list.
Qed.

Lemma addElement_complete h e chain :
  ancestors_of h e chain ->
  forall depth acc w,
    heap w = h -> readable e -> (length chain <= depth)%nat ->
    addElement depth e acc w = (Ok (chain ++ acc)%list, w).
Proof.
  induction 1 as [e H | e p chain H1 H2 IH]; intros depth acc w Hh He Hd.
  - destruct depth as [|d]; [cbn in Hd; lia|].
    cbn [addElement]. unfold bind. rewrite get_v_field by assumption.
    unfold container_of in H. rewrite Hh.
    destruct (truthy (field h e "parent")) eqn:T1; [|reflexivity].
    rewrite get_v_field by now apply truthy_readable. rewrite Hh.
    cbn in H. destruct (truthy (field h (field h e "parent") "selector"));
      [discriminate | reflexivity].
  - rewrite length_app in Hd. cbn in Hd.
    destruct depth as [|d]; [lia|].
    apply container_of_Some in H1 as (-> & T1 & T2).
    cbn [addElement]. unfold bind. rewrite get_v_field by assumption.
    rewrite Hh, T1. rewrite get_v_field by now apply truthy_readable.
    rewrite Hh, T2. rewrite (IH d (e :: acc) w Hh); [|now apply truthy_readable|lia].
    now rewrite <- app_assoc.
Qed.

Lemma addElement_sound depth :
  forall e acc w r w',
    addElement depth e acc w = (Ok r, w') ->
    w' = w /\ exists chain, r = (chain ++ acc)%list /\ ancestors_of (heap w) e chain.
Proof.
  induction depth as [|d IH]; intros e acc w r w' H; [discriminate|].
  cbn [addElement] in H. unfold bind in H.
  assert (He : readable e).
  { destruct e; try (split; congruence); discriminate. }
  rewrite get_v_field in H by assumption.
  destruct (truthy (field (heap w) e "parent")) eqn:T1.
  - rewrite get_v_field in H by now apply truthy_readable.
    destruct (truthy (field (heap w) (field (heap w) e "parent") "selector"))
      eqn:T2.
    + apply IH in H as (-> & chain & -> & Hc). split; [reflexivity|].
      exists (chain ++ [e])%list. split; [now rewrite <- app_assoc|].
      eapply ancestors_inside; [|exact Hc].
      unfold container_of. now rewrite T1, T2.
    + injection H as <- <-. split; [reflexivity|].
      exists [e]. split; [reflexivity|]. apply ancestors_outermost.
      unfold container_of. now rewrite T1, T2.
  - injection H as <- <-. split; [reflexivity|].
    exists [e]. split; [reflexivity|]. apply ancestors_outermost.
    unfold container_of. now rewrite T1.
Qed.

(** C6. For a target whose chain of containers is [chain] (the target,
    then its parent while that parent has a selector, and so on, read
    from the outermost down), [getAncestorsWithElement] returns exactly
    [chain] and leaves the world alone, given room on the stack for one
    call per entry. Whatever it returns was built that way; it has at
    least one entry, its last entry is the target and its first entry
    has no container to follow. *)
Theorem getAncestorsWithElement_chain depth target w :
  (forall chain,
      readable target ->
      ancestors_of (heap w) target chain ->
      (length chain <= depth)%nat ->
      getAncestorsWithElement depth target w = (Ok chain, w))
  /\ (forall chain w',
        getAncestorsWithElement depth target w = (Ok chain, w') ->
        w' = w
        /\ ancestors_of (heap w) target chain
        /\ (1 <= length chain)%nat
        /\ last chain = Some target
        /\ exists top rest,
             chain = top :: rest /\ container_of (heap w) top = None).
Proof.
  unfold getAncestorsWithElement. split.
  - intros chain Ht Hc Hd.
    rewrite (addElement_complete _ _ _ Hc depth [] w eq_refl Ht Hd).
    now rewrite app_nil_r.
  - intros chain w' H. apply addElement_sound in H as (-> & c & -> & Hc).
    rewrite app_nil_r.
    pose proof (ancestors_of_last _ _ _ Hc) as [H1 H2].
    repeat (split; [first [reflexivity | assumption]|]).
    eapply ancestors_of_head; eassumption.
Qed.

Lemma getAncestorsWithElement_chain_sample :
  getAncestorsWithElement 3 (VObj 11%nat) (Sample.start (VStr "xpath"))
  = (Ok [VObj 5%nat; VObj 9%nat; VObj 11%nat], Sample.start (VStr "xpath")).
Proof.
  apply (proj1 (getAncestorsWithElement_chain 3 (VObj 11%nat)
                  (Sample.start (VStr "xpath")))).
  - split; discriminate.
  - apply (ancestors_inside _ (VObj 11%nat) (VObj 9%nat) [VObj 5%nat; VObj 9%nat]);
      [reflexivity|].
    apply (ancestors_inside _ (VObj 9%nat) (VObj 5%nat) [VObj 5%nat]);
      [reflexivity|].
    apply ancestors_outermost. reflexivity.
  - cbn. lia.
Defined.

(** ** The command wrapper *)

Lemma setLocateStrategy_switch v w :
  setLocateStrategy v w = (Ok tt, switch_to v w).
Proof.
  unfold setLocateStrategy, switch_to, methodMap.
  destruct (String.eqb (to_string v) "xpath") eqn:E1.
  { apply String.eqb_eq in E1. rewrite E1. reflexivity. }
  destruct (String.eqb (to_string v) "css selector") eqn:E2.
  { apply String.eqb_eq in E2. rewrite E2. reflexivity. }
  destruct (String.eqb (to_string v) "recursion") eqn:E3.
  { apply String.eqb_eq in E3. rewrite E3. reflexivity. }
  reflexivity.
Qed.




Lemma findCallbackIndex_range args :
  findCallbackIndex args = -1
  \/ (0 <= findCallbackIndex args < Z.of_nat (length args)
      /\ is_function (arg_at args (findCallbackIndex args)) = true).
Proof.
  unfold findCallbackIndex.
  destruct (Z.of_nat (length args) =? 0) eqn:E0; [now left|].
  apply Z.eqb_neq in E0.
  destruct (is_function (arg_at args (Z.of_nat (length args) - 1))) eqn:E1.
  { right. split; [lia | assumption]. }
  destruct (is_function (arg_at args (Z.of_nat (length args) - 1 - 1))) eqn:E2;
    [|now left].
  right. split; [|assumption].
  unfold arg_at in E2.
  destruct (Z.of_nat (length args) - 1 - 1 <? 0) eqn:E3; [discriminate|].
  apply Z.ltb_ge in E3. lia.
Qed.



Section WrapperFacts.

Variable apply : applyT.


Lemma wrapped_targeted depth parent fn name chai args w args' w1 :
  isElementCommand args w = (Ok true, w) ->
  targetArguments apply depth parent name chai (locateStrategy (cl w)) args w
  = (Ok args', w1) ->
  wrapped apply depth parent fn name chai args w
  = finish_targeted parent chai (locateStrategy (cl w))
      (apply fn ThisClient args' w1).
Proof.
  intros Hc Ht. unfold wrapped, bind, gets. rewrite Hc, Ht.
  unfold finish_targeted.
  destruct (apply fn ThisClient args' w1) as [[c|ex] w2]; [|reflexivity].
  now rewrite setLocateStrategy_switch.
Qed.

(** A passthrough invocation: the underlying command gets the
    arguments as they came, in the world as it was, and what it leaves
    behind is the final world. No switch is queued. *)
Lemma wrapped_passthrough depth parent fn name chai args w :
  isElementCommand args w = (Ok false, w) ->
  wrapped apply depth parent fn name chai args w
  = match apply fn ThisClient args w with
    | (Ok c, w2) => (Ok (if chai then c else VObj parent), w2)
    | (Throw ex, w2) => (Throw ex, w2)
    end.
Proof.
  intros Hc. unfold wrapped, bind, gets. rewrite Hc. unfold ret.
  now destruct (apply fn ThisClient args w) as [[c|ex] w2].
Qed.

End WrapperFacts.

Section WrapperClaims.

Variable apply : applyT.


Lemma wrapped_targeted_inv depth parent fn name chai args w r w' :
  isElementCommand args w = (Ok true, w) ->
  wrapped apply depth parent fn name chai args w = (Ok r, w') ->
  exists args' w1 c w2,
    targetArguments apply depth parent name chai (locateStrategy (cl w))
      args w = (Ok args', w1)
    /\ apply fn ThisClient args' w1 = (Ok c, w2)
    /\ r = (if chai then c else VObj parent)
    /\ w' = switch_to (locateStrategy (cl w)) w2.
Proof.
  intros Hc H.
  destruct (targetArguments apply depth parent name chai
              (locateStrategy (cl w)) args w) as [[args'|ex] w1] eqn:Ht.
  2:{ unfold wrapped, bind, gets in H. rewrite Hc, Ht in H. discriminate. }
  rewrite (wrapped_targeted apply _ _ fn _ _ _ _ _ _ Hc Ht) in H.
  unfold finish_targeted in H.
  destruct (apply fn ThisClient args' w1) as [[c|ex] w2] eqn:Hf;
    [|discriminate].
  injection H as <- <-. now exists args', w1, c, w2.
Qed.


(** C7. A first argument that is [null] or [undefined] carries no
    sigil, yet the wrapped command does not reach the underlying
    command with it: reading its string form throws a type error, for
    every underlying command and whatever follows in the list. *)
Theorem passthrough_null_first_argument depth parent fn name chai rest w :
  wrapped apply depth parent fn name chai (VNull :: rest) w
  = (Throw (JsTypeError "Cannot read property 'toString' of null"), w)
  /\ wrapped apply depth parent fn name chai (VUndef :: rest) w
     = (Throw (JsTypeError "Cannot read property 'toString' of undefined"),
        w).
Proof. split; reflexivity. Qed.


End WrapperClaims.

Section Restoration.

Variable native : nat -> applyT -> this_arg -> list value -> M value.


End Restoration.

(** ** Registration *)

(** C8. Adding a command under a name whose slot on the target already
    holds something throws the error "The command ... is already
    defined!"; by then the error counter of the client is one higher
    and the trace of the error is the last entry of its error log. The
    heap is untouched, so the slot still holds the first registration;
    registration of a plain command through [applyCommandsToTarget]
    stops with the same error before it assigns the slot. *)
Theorem duplicate_command_is_rejected t fn name parent chai w :
  truthy (get (heap w) t name) = true ->
  exists w',
    addCommand (VObj t) fn name parent chai w
    = (Throw (JsError (already_defined name)), w')
    /\ results_errors (cl w') = results_errors (cl w) + 1
    /\ errors (cl w')
       = (errors (cl w) ++ [error_stack (already_defined name)])%list
    /\ heap w' = heap w
    /\ get (heap w') t name = get (heap w) t name
    /\ (isValidAssertion name = false ->
        forall commands, readable commands ->
          applyCommand parent (VObj t) commands name w
          = (Throw (JsError (already_defined name)), w')).
Proof.
  intros H.
  exists (push_error (error_stack (already_defined name)) (count_error w)).
  split; [|repeat split].
  - unfold addCommand, bind, get_v. rewrite H. reflexivity.
  - intros Hn commands Hr. unfold applyCommand. rewrite Hn.
    unfold bind. rewrite (get_v_field _ _ _ Hr).
    unfold addCommand, bind, get_v. rewrite H. reflexivity.
Qed.

(** ** The sample page at work *)

Module SampleRuns.
Import Sample.







(** Registering [click] twice on the page. *)
Lemma duplicate_command_is_rejected_sample :
  applyCommandsToTarget 0%nat (VObj 0%nat) (VObj 13%nat) unregistered
  = (Ok tt, registered)
  /\ exists w2,
       applyCommandsToTarget 0%nat (VObj 0%nat) (VObj 13%nat) registered
       = (Throw (JsError (already_defined "click")), w2)
       /\ results_errors (cl w2) = 1
       /\ errors (cl w2) = [error_stack (already_defined "click")]
       /\ get (heap w2) 0%nat "click"
          = makeWrappedCommand 0%nat (VFun (Native 1)) "click" false.
Proof.
  split; [vm_compute; reflexivity|].
  destruct (duplicate_command_is_rejected 0%nat (VFun (Native 1)) "click"
              0%nat false registered eq_refl)
    as (w2 & Hadd & Hcount & Hlog & Hheap & Hslot & Happly).
  exists w2. split; [|split; [|split]].
  - assert (Hv : isValidAssertion "click" = false)
      by (vm_compute; reflexivity).
    assert (Hr : readable (VObj 13%nat)) by (split; discriminate).
    rewrite <- (Happly Hv (VObj 13%nat) Hr).
    vm_compute. reflexivity.
  - rewrite Hcount. reflexivity.
  - rewrite Hlog. reflexivity.
  - rewrite Hslot. reflexivity.
Defined.

End SampleRuns.

(** * Further properties of the code *)

(** ** The callback scan *)

Lemma arg_at_nat args (i : nat) : arg_at args (Z.of_nat i) = nth i args VUndef.
Proof.
  unfold arg_at. destruct (Z.of_nat i <? 0) eqn:E.
  - apply Z.ltb_lt in E. lia.
  - now rewrite Nat2Z.id.
Qed.

(** X1. [findCallbackIndex] looks at the last position and then at the
    one before it, and nowhere else: a function in the last position
    is found there; a function just before a last argument that is not
    a function is found there; when neither of the last two arguments
    is a function the answer is -1, whatever stands before them, and
    so it is for one argument that is no function. *)
Theorem findCallbackIndex_scan (pre : list value) (a b : value) :
  (is_function b = true ->
   findCallbackIndex (pre ++ [b]) = Z.of_nat (length pre))
  /\ (is_function a = true -> is_function b = false ->
      findCallbackIndex (pre ++ [a; b]) = Z.of_nat (length pre))
  /\ (is_function a = false -> is_function b = false ->
      findCallbackIndex (pre ++ [a; b]) = -1)
  /\ (is_function b = false -> findCallbackIndex [b] = -1).
Proof.
  repeat split.
  - intros Hb. unfold findCallbackIndex. rewrite length_app. cbn [length].
    destruct (Z.of_nat (length pre + 1) =? 0) eqn:E0;
      [apply Z.eqb_eq in E0; lia|].
    replace (Z.of_nat (length pre + 1) - 1) with (Z.of_nat (length pre)) by lia.
    rewrite arg_at_nat, List.nth_middle, Hb. reflexivity.
  - intros Ha Hb. unfold findCallbackIndex. rewrite length_app. cbn [length].
    destruct (Z.of_nat (length pre + 2) =? 0) eqn:E0;
      [apply Z.eqb_eq in E0; lia|].
    replace (Z.of_nat (length pre + 2) - 1) with (Z.of_nat (length pre + 1))
      by lia.
    rewrite arg_at_nat.
    replace (pre ++ [a; b])%list with ((pre ++ [a]) ++ [b])%list
      by (now rewrite <- app_assoc).
    replace (length pre + 1)%nat with (length (pre ++ [a])%list)
      by (rewrite length_app; reflexivity).
    rewrite List.nth_middle, Hb.
    rewrite length_app. cbn [length].
    replace (Z.of_nat (length pre + 1) - 1) with (Z.of_nat (length pre)) by lia.
    rewrite arg_at_nat, <- app_assoc. cbn [app].
    rewrite List.nth_middle, Ha. reflexivity.
  - intros Ha Hb. unfold findCallbackIndex. rewrite length_app. cbn [length].
    destruct (Z.of_nat (length pre + 2) =? 0) eqn:E0;
      [apply Z.eqb_eq in E0; lia|].
    replace (Z.of_nat (length pre + 2) - 1) with (Z.of_nat (length pre + 1))
      by lia.
    rewrite arg_at_nat.
    replace (pre ++ [a; b])%list with ((pre ++ [a]) ++ [b])%list
      by (now rewrite <- app_assoc).
    replace (length pre + 1)%nat with (length (pre ++ [a])%list)
      by (rewrite length_app; reflexivity).
    rewrite List.nth_middle, Hb.
    rewrite length_app. cbn [length].
    replace (Z.of_nat (length pre + 1) - 1) with (Z.of_nat (length pre)) by lia.
    rewrite arg_at_nat, <- app_assoc. cbn [app].
    rewrite List.nth_middle, Ha. reflexivity.
  - intros Hb. destruct b; try discriminate Hb; reflexivity.
Qed.

(** X2. Wrapping the callback keeps the length of the argument list
    and every argument except the one at the position the scan found;
    that one becomes the wrapper around the argument that stood
    there. *)
Theorem wrapCallback_touches_one_position prev args (i : nat) :
  Z.of_nat i <> findCallbackIndex args ->
  length (wrapCallback prev args) = length args
  /\ wrapCallback prev args !! i = args !! i.
Proof.
  intros Hi. unfold wrapCallback.
  destruct (findCallbackIndex args =? -1) eqn:E1; cbn [negb]; [now split|].
  apply Z.eqb_neq in E1.
  split; [apply length_insert|].
  apply list_lookup_insert_ne.
  destruct (findCallbackIndex_range args) as [E | [[Hlo Hhi] _]];
    [contradiction | lia].
Qed.

(** ** Telling a targeted call from a passthrough *)

Lemma indexOf_from_lower c s i :
  JsString.indexOf_from c s i = -1 \/ i <= JsString.indexOf_from c s i.
Proof.
  revert i. induction s as [|a s IH]; intros i; cbn; [now left|].
  destruct (Ascii.eqb a c); [right; lia|].
  destruct (IH (i + 1)) as [H | H]; [now left | right; lia].
Qed.

Lemma indexOf_zero c s :
  (JsString.indexOf c s =? 0) = JsString.startsWith c s.
Proof.
  unfold JsString.indexOf. destruct s as [|a s]; cbn; [reflexivity|].
  destruct (Ascii.eqb a c); [reflexivity|].
  destruct (indexOf_from_lower c s (0 + 1)) as [H | H].
  - now rewrite H.
  - apply Z.eqb_neq. lia.
Qed.




(** ** What a wrapped command does around the underlying command *)

Lemma isElementCommand_pure args w : snd (isElementCommand args w) = w.
Proof. destruct args as [|[] rest]; reflexivity. Qed.


Section AroundTheCommand.

Variable apply : applyT.


(** X5. When the target of a targeted call cannot be resolved, the
    wrapped command throws what the resolver threw and leaves the world
    as the resolver left it: no strategy switch is queued and the
    underlying command, whatever it is, is not called. *)
Theorem failed_resolution_stops_the_call depth parent fn name chai args w
  ex w1 :
  isElementCommand args w = (Ok true, w) ->
  getter apply name chai parent (hd VUndef args) w = (Throw ex, w1) ->
  wrapped apply depth parent fn name chai args w = (Throw ex, w1).
Proof.
  intros Hc Hg. unfold wrapped, bind, gets. rewrite Hc.
  unfold targetArguments, bind. unfold getter in Hg. now rewrite Hg.
Qed.

(** X6. When the underlying command of a targeted call throws, the
    wrapped command throws the same and stops there: the world is the
    one the command left, so the switch made for the target stays
    queued and no restoring switch follows it. *)
Theorem throwing_command_skips_the_restore depth parent fn name chai args w
  args' w1 ex w2 :
  isElementCommand args w = (Ok true, w) ->
  targetArguments apply depth parent name chai (locateStrategy (cl w)) args w
  = (Ok args', w1) ->
  apply fn ThisClient args' w1 = (Throw ex, w2) ->
  wrapped apply depth parent fn name chai args w = (Throw ex, w2).
Proof.
  intros Hc Ht Hf.
  rewrite (wrapped_targeted apply _ _ fn _ _ _ _ _ _ Hc Ht), Hf.
  reflexivity.
Qed.

(** X7. What a wrapped command returns: a command or an assertion that
    is not of the chai kind returns the parent, for chaining, on every
    call that returns, targeted or not; one of the chai kind returns
    what the underlying command returned. *)
Theorem wrapped_return_value depth parent fn name chai args w r w' :
  wrapped apply depth parent fn name chai args w = (Ok r, w') ->
  (chai = false -> r = VObj parent)
  /\ (chai = true ->
      exists args' w1 w2, apply fn ThisClient args' w1 = (Ok r, w2)).
Proof.
  intros H.
  destruct (isElementCommand args w) as [[[|]|ex] w0] eqn:Hc.
  - pose proof (isElementCommand_pure args w) as Hp. rewrite Hc in Hp.
    cbn in Hp. subst w0.
    apply (wrapped_targeted_inv _ _ _ _ _ _ _ _ _ _ Hc) in H
      as (args' & w1 & c & w2 & _ & Hf & -> & _).
    split; intros ->; [reflexivity|]. now exists args', w1, w2.
  - pose proof (isElementCommand_pure args w) as Hp. rewrite Hc in Hp.
    cbn in Hp. subst w0.
    rewrite (wrapped_passthrough apply _ _ fn _ _ _ _ Hc) in H.
    destruct (apply fn ThisClient args w) as [[c|ex] w2] eqn:Hf;
      [|discriminate].
    injection H as <- <-.
    split; intros ->; [reflexivity|]. now exists args, w, w2.
  - unfold wrapped, bind, gets in H. rewrite Hc in H. discriminate.
Qed.

End AroundTheCommand.

(** ** More on selector resolution *)

Section MoreResolverFacts.

Variable apply : applyT.
Import JsString JsStringFacts.

(** The world a parameterized reference leaves, spelled out. *)
Lemma getElement_parameterized_run parent E b name args f v w w2 :
  well_formed_reference name (join args) = true ->
  args <> [] ->
  forallb (all_chars (is_not ","%char)) args = true ->
  get (heap w) parent "elements" = VObj E ->
  has_prop (heap w) E (reference name (join args)) = false ->
  find_prop (heap w) E name = Some (VObj b) ->
  get (heap w) b "selector" = VFun f ->
  apply (VFun f) ThisNull (List.map VStr args)
        (World (heap w ++ [Obj (Some b) []]) (cl w)) = (Ok v, w2) ->
  getElement apply parent
    (VStr (String "@"%char (reference name (join args)))) w
  = (Ok (VObj (length (heap w))),
     World (set_prop (set_prop (heap w2) (length (heap w)) "selector" v)
              (length (heap w)) "parent"
              (get (set_prop (heap w2) (length (heap w)) "selector" v) b
                 "parent"))
           (cl w2)).
Proof.
  intros Hwf Hne Hsep HE Hdirect Hbase Hsel Hcall.
  run_resolver. rewrite substring1_sigil, HE. cbv beta iota.
  rewrite Hdirect, (reference_matches _ _ Hwf).
  rewrite (reference_name _ _ Hwf), (reference_body _ _ Hwf).
  rewrite (split_join _ Hne Hsep).
  rewrite HE. cbv beta iota.
  rewrite (has_prop_true _ _ _ _ Hbase). rewrite HE. cbv beta iota.
  rewrite (get_find _ _ _ _ Hbase).
  cbv beta iota. rewrite Hsel. cbn [is_function negb]. cbv beta iota.
  cbn [heap cl].
  rewrite (get_find _ _ _ _
             (find_prop_created _ _ _ _ (find_get_fun _ _ _ _ Hsel))).
  rewrite Hcall. reflexivity.
Qed.

(** X8. The object a parameterized reference resolves to delegates to
    the base element: when the selector function leaves the heap
    alone, every field of the base element other than the selector and
    the parent, such as its name and its locate strategy, reads the
    same on the resolved object. *)
Theorem parameterized_reference_inherits parent E b name args f v w c2 k v0 :
  well_formed_reference name (join args) = true ->
  args <> [] ->
  forallb (all_chars (is_not ","%char)) args = true ->
  get (heap w) parent "elements" = VObj E ->
  has_prop (heap w) E (reference name (join args)) = false ->
  find_prop (heap w) E name = Some (VObj b) ->
  get (heap w) b "selector" = VFun f ->
  apply (VFun f) ThisNull (List.map VStr args)
        (World (heap w ++ [Obj (Some b) []]) (cl w))
  = (Ok v, World (heap w ++ [Obj (Some b) []]) c2) ->
  k <> "selector" -> k <> "parent" ->
  find_prop (heap w) b k = Some v0 ->
  exists w',
    getElement apply parent
      (VStr (String "@"%char (reference name (join args)))) w
    = (Ok (VObj (length (heap w))), w')
    /\ get (heap w') (length (heap w)) k = v0
    /\ get (heap w') b k = v0.
Proof.
  intros Hwf Hne Hsep HE Hdirect Hbase Hsel Hcall Hk1 Hk2 Hk.
  eexists. split.
  - eapply getElement_parameterized_run; eassumption.
  - cbn [heap].
    rewrite !get_set_other by congruence.
    split.
    + apply get_find, find_prop_created, Hk.
    + apply get_find. unfold find_prop in *.
      rewrite length_app. cbn [length].
      replace (S (length (heap w) + 1))%nat with (S (length (heap w)) + 1)%nat
        by lia.
      now apply lookup_prop_grow.
Qed.

End MoreResolverFacts.

Section UnknownNames.

Variable apply : applyT.
Import JsString JsStringFacts.

(** X9. An unknown element is reported with the keys of the elements
    and without any change to the world. For a name without the
    parameter shape the error names the whole name; for a reference
    [name<body>] whose base [name] is unknown as well, the error names
    the bare [name], not the reference. *)
Theorem unknown_element_is_reported parent E w :
  get (heap w) parent "elements" = VObj E ->
  (forall token,
      has_prop (heap w) E (substring1 1 token) = false ->
      matches_param (substring1 1 token) = false ->
      getElement apply parent (VStr token) w
      = (Throw (JsError (element_not_found (substring1 1 token)
                           (get (heap w) parent "name")
                           (own_keys (heap w) E))), w))
  /\ (forall name body,
        well_formed_reference name body = true ->
        has_prop (heap w) E (reference name body) = false ->
        has_prop (heap w) E name = false ->
        getElement apply parent
          (VStr (String "@"%char (reference name body))) w
        = (Throw (JsError (element_not_found name
                             (get (heap w) parent "name")
                             (own_keys (heap w) E))), w)).
Proof.
  intros HE. split.
  - intros token Hin Hm. now apply getElement_not_found.
  - intros name body Hwf Hdirect Hbase.
    run_resolver. rewrite substring1_sigil, HE. cbv beta iota.
    rewrite Hdirect, (reference_matches _ _ Hwf), (reference_name _ _ Hwf).
    rewrite HE. cbv beta iota. rewrite Hbase. rewrite HE. reflexivity.
Qed.

End UnknownNames.

(** X10. A section that is a key of [parent.section] is returned as it
    is, with the world unchanged. *)
Theorem getSection_found parent S token w :
  get (heap w) parent "section" = VObj S ->
  has_prop (heap w) S (JsString.substring1 1 token) = true ->
  getSection parent (VStr token) w
  = (Ok (get (heap w) S (JsString.substring1 1 token)), w).
Proof.
  intros HS Hin. run_resolver. rewrite HS. cbv beta iota. rewrite Hin.
  cbn [negb]. rewrite HS. reflexivity.
Qed.

(** X11. On a container without the property [section], a section
    lookup throws a type error for every name, known or not: the
    membership test is made on [undefined]. *)
Theorem getSection_without_section_property parent token w :
  get (heap w) parent "section" = VUndef ->
  getSection parent (VStr token) w
  = (Throw (JsTypeError ("Cannot use 'in' operator to search for '"
                         ++ JsString.substring1 1 token
                         ++ "' in undefined")), w).
Proof. intros HS. run_resolver. rewrite HS. reflexivity. Qed.

(** X12. The not-found error of a section lookup: the name is looked
    for among the keys of [parent.section], and the names the error
    lists are the keys of [parent.sections]. The parameter syntax
    means nothing here: a reference [name<body>] is looked up as one
    name, so it is reported even when [name] is a section. *)
Theorem unknown_section_is_reported parent S S' w :
  get (heap w) parent "section" = VObj S ->
  get (heap w) parent "sections" = VObj S' ->
  (forall token,
      has_prop (heap w) S (JsString.substring1 1 token) = false ->
      getSection parent (VStr token) w
      = (Throw (JsError (section_not_found (JsString.substring1 1 token)
                           (get (heap w) parent "name")
                           (own_keys (heap w) S'))), w))
  /\ (forall name body,
        has_prop (heap w) S name = true ->
        has_prop (heap w) S (JsString.reference name body) = false ->
        getSection parent
          (VStr (String "@"%char (JsString.reference name body))) w
        = (Throw (JsError (section_not_found (JsString.reference name body)
                             (get (heap w) parent "name")
                             (own_keys (heap w) S'))), w)).
Proof.
  intros HS HS'.
  assert (H : forall token,
             has_prop (heap w) S (JsString.substring1 1 token) = false ->
             getSection parent (VStr token) w
             = (Throw (JsError (section_not_found
                                  (JsString.substring1 1 token)
                                  (get (heap w) parent "name")
                                  (own_keys (heap w) S'))), w)).
  { intros token Hin. rewrite (getSection_not_found _ _ _ _ HS Hin).
    rewrite HS'. reflexivity. }
  split; [exact H|].
  intros name body _ Hin.
  specialize (H (String "@"%char (JsString.reference name body))).
  rewrite JsStringFacts.substring1_sigil in H. now apply H.
Qed.

(** ** More on the ancestor chain *)

Lemma ancestors_of_adjacent h e chain :
  ancestors_of h e chain ->
  forall i a b,
    chain !! i = Some a -> chain !! S i = Some b ->
    container_of h b = Some a.
Proof.
  induction 1 as [e H | e p chain H1 H2 IH]; intros i a b Ha Hb.
  - destruct i; discriminate.
  - destruct (ancestors_of_last _ _ _ H2) as [Hlen Hlast].
    destruct (decide (S i < length chain)%nat) as [Hlt | Hge].
    + rewrite lookup_app_l in Ha by lia. rewrite lookup_app_l in Hb by lia.
      eauto.
    + assert (Hi : S i = length chain).
      { apply lookup_lt_Some in Hb. rewrite length_app in Hb. cbn in Hb. lia. }
      rewrite lookup_app_l in Ha by lia.
      rewrite Hi, list_lookup_middle in Hb by reflexivity.
      injection Hb as <-.
      rewrite last_lookup in Hlast.
      replace (pred (length chain)) with i in Hlast by lia.
      congruence.
Qed.

Lemma ancestors_of_unique h e c1 :
  ancestors_of h e c1 -> forall c2, ancestors_of h e c2 -> c1 = c2.
Proof.
  induction 1 as [e H | e p chain H1 H2 IH]; intros c2 Hc2.
  - inversion Hc2; subst; [reflexivity | congruence].
  - inversion Hc2 as [? H | ? p' chain' H1' H2']; subst; [congruence|].
    assert (p' = p) by congruence. subst p'.
    now rewrite (IH _ H2').
Qed.

Lemma ancestors_of_prefix h e chain :
  ancestors_of h e chain ->
  forall x, In x chain ->
    exists pre post,
      chain = (pre ++ x :: post)%list /\ ancestors_of h x (pre ++ [x]).
Proof.
  induction 1 as [e H | e p chain H1 H2 IH]; intros x Hx.
  - destruct Hx as [<- | []]. exists [], []. split; [reflexivity|].
    now apply ancestors_outermost.
  - apply in_app_or in Hx as [Hx | [<- | []]].
    + destruct (IH _ Hx) as (pre & post & -> & Hp).
      exists pre, (post ++ [e])%list. split; [|assumption].
      now rewrite <- app_assoc.
    + exists chain, []. split; [reflexivity|].
      eapply ancestors_inside; eassumption.
Qed.

Lemma ancestors_of_NoDup h e chain : ancestors_of h e chain -> List.NoDup chain.
Proof.
  induction 1 as [e H | e p chain H1 H2 IH].
  - constructor; [intros [] | constructor].
  - apply List.NoDup_app;
      [assumption | constructor; [intros [] | constructor] |].
    intros x Hx [<- | []].
    destruct (ancestors_of_prefix _ _ _ H2 _ Hx) as (pre & post & Heq & Hp).
    pose proof (ancestors_of_unique _ _ _ Hp _
                  (ancestors_inside _ _ _ _ H1 H2)) as Hu.
    apply (f_equal (@length value)) in Hu. apply (f_equal (@length value)) in Heq.
    rewrite !length_app in Hu. rewrite length_app in Heq. cbn in Hu, Heq. lia.
Qed.

(** X13. In the list [getAncestorsWithElement] returns, every entry is
    the parent of the entry after it and has a selector. *)
Theorem getAncestorsWithElement_links depth target w chain w' :
  getAncestorsWithElement depth target w = (Ok chain, w') ->
  forall i a b,
    chain !! i = Some a -> chain !! S i = Some b ->
    field (heap w) b "parent" = a
    /\ truthy (field (heap w) a "selector") = true.
Proof.
  intros H i a b Ha Hb. unfold getAncestorsWithElement in H.
  apply addElement_sound in H as (_ & c & -> & Hc).
  rewrite app_nil_r in Ha, Hb.
  pose proof (ancestors_of_adjacent _ _ _ Hc _ _ _ Ha Hb) as Hab.
  apply container_of_Some in Hab as (-> & _ & Hs). now split.
Qed.

(** X14. The list [getAncestorsWithElement] returns has exactly one
    entry if and only if the target has no parent with a selector; so
    the strategy 'recursion' is chosen exactly for targets inside a
    container that has a selector. *)
Theorem getAncestorsWithElement_single depth target w chain w' :
  getAncestorsWithElement depth target w = (Ok chain, w') ->
  (length chain = 1%nat <-> container_of (heap w) target = None)
  /\ effective_target (heap w) target chain
     = match container_of (heap w) target with
       | None => (field (heap w) target "selector",
                  field (heap w) target "locateStrategy")
       | Some _ => (VArr chain, VStr "recursion")
       end.
Proof.
  intros H. unfold getAncestorsWithElement in H.
  apply addElement_sound in H as (_ & c & -> & Hc).
  rewrite app_nil_r. unfold effective_target.
  destruct Hc as [e Hn | e p c H1 H2].
  - rewrite Hn. split; [now split | reflexivity].
  - destruct (ancestors_of_last _ _ _ H2) as [Hlen _].
    rewrite H1, length_app. cbn [length]. split.
    + split; [lia | discriminate].
    + destruct (Z.of_nat (length c + 1) =? 1) eqn:E; [|reflexivity].
      apply Z.eqb_eq in E. lia.
Qed.

(** X15. The list [getAncestorsWithElement] returns never holds the
    same entry twice. *)
Theorem getAncestorsWithElement_NoDup depth target w chain w' :
  getAncestorsWithElement depth target w = (Ok chain, w') ->
  List.NoDup chain.
Proof.
  intros H. unfold getAncestorsWithElement in H.
  apply addElement_sound in H as (_ & c & -> & Hc).
  rewrite app_nil_r. now apply ancestors_of_NoDup in Hc.
Qed.

(** ** More on registration *)

Lemma applyCommand_plain_free parent t commands name w :
  isValidAssertion name = false ->
  readable commands ->
  truthy (get (heap w) t name) = false ->
  applyCommand parent (VObj t) commands name w
  = (Ok tt,
     World (set_prop (heap w) t name
              (makeWrappedCommand parent (field (heap w) commands name)
                 name false))
           (cl w)).
Proof.
  intros Hn Hr Hfree. unfold applyCommand. rewrite Hn.
  unfold bind. rewrite (get_v_field _ _ _ Hr).
  unfold addCommand, bind, get_v. rewrite Hfree. reflexivity.
Qed.

Lemma applyCommand_plain_taken parent t commands name w :
  isValidAssertion name = false ->
  readable commands ->
  truthy (get (heap w) t name) = true ->
  applyCommand parent (VObj t) commands name w
  = (Throw (JsError (already_defined name)),
     push_error (error_stack (already_defined name)) (count_error w)).
Proof.
  intros Hn Hr Htaken. unfold applyCommand. rewrite Hn.
  unfold bind. rewrite (get_v_field _ _ _ Hr).
  unfold addCommand, bind, get_v. rewrite Htaken. reflexivity.
Qed.

(** X16. Registering a command that is no assertion keyword under a
    free name puts the wrapped command, made from the catalog's
    function, the name and the parent, into that slot of the target.
    Nothing else changes: every other property of every object reads
    as before, every other object is the same, and the client, with
    its error counter and log, is untouched. *)
Theorem plain_command_registration parent t commands name w :
  isValidAssertion name = false ->
  readable commands ->
  (t < length (heap w))%nat ->
  truthy (get (heap w) t name) = false ->
  exists w',
    applyCommand parent (VObj t) commands name w = (Ok tt, w')
    /\ get (heap w') t name
       = VFun (WrappedCommand parent (field (heap w) commands name)
                 name false)
    /\ (forall l k, k <> name -> get (heap w') l k = get (heap w) l k)
    /\ (forall l, l <> t -> heap w' !! l = heap w !! l)
    /\ cl w' = cl w.
Proof.
  intros Hn Hr Ht Hfree. eexists. split.
  - now apply applyCommand_plain_free.
  - cbn [heap cl]. repeat split.
    + apply get_find, find_prop_set_same, Ht.
    + intros l k Hk. apply get_set_other. congruence.
    + intros l Hl. apply set_prop_other. congruence.
Qed.

(** X17. Registering the same plain name twice on one target: the
    first registration succeeds, the second, from whatever catalog and
    for whatever parent, throws "The command ... is already defined!",
    counts one error, logs its trace and leaves the slot with the
    first registration. *)
Theorem second_registration_fails parent t commands name w
  parent2 commands2 :
  isValidAssertion name = false ->
  readable commands -> readable commands2 ->
  (t < length (heap w))%nat ->
  truthy (get (heap w) t name) = false ->
  exists w1 w2,
    applyCommand parent (VObj t) commands name w = (Ok tt, w1)
    /\ applyCommand parent2 (VObj t) commands2 name w1
       = (Throw (JsError (already_defined name)), w2)
    /\ results_errors (cl w2) = results_errors (cl w) + 1
    /\ errors (cl w2)
       = (errors (cl w) ++ [error_stack (already_defined name)])%list
    /\ get (heap w2) t name
       = VFun (WrappedCommand parent (field (heap w) commands name)
                 name false).
Proof.
  intros Hn Hr Hr2 Ht Hfree. eexists _, _. split; [|split].
  - now apply applyCommand_plain_free.
  - apply applyCommand_plain_taken; [assumption | assumption |].
    cbn [heap]. erewrite get_find by (apply find_prop_set_same, Ht).
    reflexivity.
  - cbn. repeat split. apply get_find, find_prop_set_same, Ht.
Qed.


(** ** Groups of assertions *)












(** ** More on the parameter syntax *)

Lemma join_cons x y rest :
  JsString.join (x :: y :: rest) = x ++ "," ++ JsString.join (y :: rest).
Proof. reflexivity. Qed.

Lemma join_cons_char a h t :
  JsString.join (String a h :: t) = String a (JsString.join (h :: t)).
Proof. destruct t; reflexivity. Qed.

Lemma split_not_nil c s : JsString.split c s <> [].
Proof.
  destruct s as [|a s]; cbn; [discriminate|].
  destruct (Ascii.eqb a c); [discriminate|].
  destruct (JsString.split c s); discriminate.
Qed.

(** X20. Cutting a text at its commas loses nothing: the pieces, joined
    with commas again, are the text; and there is always at least one
    piece, so a reference [name<>] has the one argument [""]. *)
Theorem split_then_join s :
  JsString.join (JsString.split ","%char s) = s
  /\ JsString.split ","%char s <> []
  /\ JsString.split ","%char "" = [""].
Proof.
  split; [|split; [apply split_not_nil | reflexivity]].
  induction s as [|a s IH]; [reflexivity|]. cbn [JsString.split].
  destruct (Ascii.eqb a ","%char) eqn:E.
  - apply Ascii.eqb_eq in E. subst a.
    destruct (JsString.split ","%char s) as [|h t] eqn:Es.
    + now apply split_not_nil in Es.
    + rewrite join_cons, IH. reflexivity.
  - destruct (JsString.split ","%char s) as [|h t] eqn:Es.
    + now apply split_not_nil in Es.
    + rewrite join_cons_char, IH. reflexivity.
Qed.

(** X21. The test [/[^<]+<.*>$/] of [getElement] accepts exactly the
    names that hold some character other than ["<"], directly followed
    by ["<"], then any text without a line break, then a [">"] that
    ends the name. *)
Theorem parameter_pattern s :
  JsString.matches_param s = true <->
  exists pre c body,
    s = pre ++ String c (String "<"%char (body ++ ">"))
    /\ c <> "<"%char /\ JsString.no_line_break body = true.
Proof. apply JsStringFacts.matches_param_iff. Qed.

(** X22. How [getElement] cuts a reference [name<body>]: the name is
    what stands before the first ["<"] and the argument text is all
    that stands between that ["<"] and the final [">"], so the
    argument text may itself hold ["<"], [">"] and commas. *)
Theorem reference_is_cut_at_the_first_bracket name body :
  JsString.well_formed_reference name body = true ->
  let token := JsString.reference name body in
  JsString.matches_param token = true
  /\ JsString.substring2 0 (JsString.indexOf "<"%char token) token = name
  /\ JsString.substring2 (JsString.indexOf "<"%char token + 1)
       (JsString.lastIndexOf ">"%char token) token = body.
Proof.
  intros H token. unfold token.
  auto using JsStringFacts.reference_matches, JsStringFacts.reference_name,
    JsStringFacts.reference_body.
Qed.

(** ** More on the locate strategy and on odd arguments *)


Lemma array_string_keeps_sigil s vs :
  JsString.startsWith "@"%char
    (to_string (VArr (VStr (String "@"%char s) :: vs))) = true.
Proof.
  cbn [to_string List.map]. rewrite join_cons_char. reflexivity.
Qed.

(** X24. An array whose first entry is a string with the sigil counts
    as a targeted first argument, since its string form begins with
    the sigil; the resolver cannot cut the sigil off an array, so the
    wrapped command throws a type error, with the world unchanged and
    the underlying command not called. *)
Theorem array_first_argument_throws apply depth parent fn name chai
  s vs rest w :
  isElementCommand (VArr (VStr (String "@"%char s) :: vs) :: rest) w
  = (Ok true, w)
  /\ wrapped apply depth parent fn name chai
       (VArr (VStr (String "@"%char s) :: vs) :: rest) w
     = (Throw (JsTypeError "substring is not a function"), w).
Proof.
  assert (Hc : isElementCommand
                 (VArr (VStr (String "@"%char s) :: vs) :: rest) w
               = (Ok true, w)).
  { unfold isElementCommand, ret.
    now rewrite indexOf_zero, array_string_keeps_sigil. }
  split; [exact Hc|].
  unfold wrapped, bind, gets. rewrite Hc.
  unfold targetArguments, bind. cbn [hd].
  destruct (chai && String.eqb name "section"); reflexivity.
Qed.

(** X25. [addWrappedCommands] registers what the loader returns, not
    the object it hands to the loader: a loader that returns
    [undefined] makes it throw a type error, with nothing registered
    beyond what the loader itself did. *)
Theorem loader_must_return_the_catalog apply parent loader w w1 :
  apply loader ThisNull [VObj (length (heap w))]
    (World (heap w ++ [Obj None []]) (cl w)) = (Ok VUndef, w1) ->
  addWrappedCommands apply parent loader w
  = (Throw (JsTypeError "Cannot convert undefined or null to object"), w1).
Proof.
  intros H. unfold addWrappedCommands, bind, object_literal. now rewrite H.
Qed.

(** ** The further properties on the sample page *)

Module MoreSampleRuns.
Import Sample.

Ltac crunch := vm_compute; first [reflexivity | discriminate | lia].

Lemma findCallbackIndex_scan_sample :
  findCallbackIndex ([VStr "#submit"] ++ [VFun (Native 2); VStr "message"])
  = 1.
Proof.
  apply (proj1 (proj2 (findCallbackIndex_scan [VStr "#submit"]
                         (VFun (Native 2)) (VStr "message"))));
    reflexivity.
Defined.

Lemma wrapCallback_touches_one_position_sample :
  length (wrapCallback (VStr "xpath")
            [VStr "#submit"; VNum 5000; VFun (Native 2)])
  = length [VStr "#submit"; VNum 5000; VFun (Native 2)]
  /\ wrapCallback (VStr "xpath")
       [VStr "#submit"; VNum 5000; VFun (Native 2)] !! 1%nat
     = [VStr "#submit"; VNum 5000; VFun (Native 2)] !! 1%nat.
Proof.
  apply (wrapCallback_touches_one_position (VStr "xpath")
           [VStr "#submit"; VNum 5000; VFun (Native 2)] 1%nat).
  crunch.
Defined.


(** [page.click('@nope')] *)
Lemma failed_resolution_stops_the_call_sample :
  wrapped (call natives 3) 3 0%nat (VFun (Native 1)) "click" false
    [VStr "@nope"] (start (VStr "xpath"))
  = (Throw (JsError (element_not_found "nope" (VStr "page")
                       ["submitButton"; "row"; "row<x>"])),
     start (VStr "xpath")).
Proof.
  apply (failed_resolution_stops_the_call (call natives 3) 3 0%nat
           (VFun (Native 1)) "click" false [VStr "@nope"]
           (start (VStr "xpath"))); crunch.
Defined.

(** A catalog entry that is no function, called on an element. *)
Lemma throwing_command_skips_the_restore_sample :
  wrapped (call natives 3) 3 0%nat (VStr "oops") "click" false
    [VStr "@submitButton"] (start (VStr "xpath"))
  = (Throw (JsTypeError "oops is not a function"),
     enqueue (QSwitch "css selector") (start (VStr "xpath"))).
Proof.
  apply (throwing_command_skips_the_restore (call natives 3) 3 0%nat
           (VStr "oops") "click" false [VStr "@submitButton"]
           (start (VStr "xpath")) [VStr "#submit"]
           (enqueue (QSwitch "css selector") (start (VStr "xpath"))));
    crunch.
Defined.

(** Scenario B: an assertion of the chai kind returns what the
    underlying function returns. *)
Lemma wrapped_return_value_sample :
  exists args' w1 w2,
    call natives 3 (VFun (Native 0)) ThisClient args' w1
    = (Ok (VStr "#row-#submit"), w2).
Proof.
  assert (H : wrapped (call natives 3) 3 0%nat (VFun (Native 0)) "visible"
                true [VStr "@submitButton"] (start (VStr "xpath"))
              = (Ok (VStr "#row-#submit"),
                 enqueue (QSwitch "xpath")
                   (enqueue (QSwitch "css selector") (start (VStr "xpath")))))
    by crunch.
  exact (proj2 (wrapped_return_value (call natives 3) 3 0%nat
                  (VFun (Native 0)) "visible" true [VStr "@submitButton"]
                  (start (VStr "xpath")) _ _ H) eq_refl).
Defined.

Lemma parameterized_reference_inherits_sample :
  exists w',
    getElement (call natives 3) 0%nat (VStr "@row<a,b>")
      (start (VStr "xpath"))
    = (Ok (VObj 13%nat), w')
    /\ get (heap w') 13%nat "locateStrategy" = VStr "css selector"
    /\ get (heap w') 4%nat "locateStrategy" = VStr "css selector".
Proof.
  apply (parameterized_reference_inherits (call natives 3) 0%nat 1%nat 4%nat
           "row" ["a"; "b"] (Native 0) (VStr "#row-a,b")
           (start (VStr "xpath")) (cl (start (VStr "xpath")))
           "locateStrategy" (VStr "css selector"));
    first [crunch | discriminate].
Defined.

Lemma unknown_element_is_reported_sample :
  getElement (call natives 3) 0%nat (VStr "@nope<x>") (start (VStr "xpath"))
  = (Throw (JsError (element_not_found "nope" (VStr "page")
                       ["submitButton"; "row"; "row<x>"])),
     start (VStr "xpath")).
Proof.
  apply (proj2 (unknown_element_is_reported (call natives 3) 0%nat 1%nat
                  (start (VStr "xpath")) eq_refl) "nope" "x"); crunch.
Defined.

Lemma getSection_found_sample :
  getSection 0%nat (VStr "@header") (start (VStr "xpath"))
  = (Ok (VObj 5%nat), start (VStr "xpath")).
Proof.
  apply (getSection_found 0%nat 2%nat "@header" (start (VStr "xpath")));
    crunch.
Defined.

(** The inner section has elements and no sections of its own. *)
Lemma getSection_without_section_property_sample :
  getSection 9%nat (VStr "@footer") (start (VStr "xpath"))
  = (Throw (JsTypeError
              "Cannot use 'in' operator to search for 'footer' in undefined"),
     start (VStr "xpath")).
Proof.
  apply (getSection_without_section_property 9%nat "@footer"
           (start (VStr "xpath"))).
  crunch.
Defined.

(** A page that has both properties, with different keys. *)
Lemma unknown_section_is_reported_sample :
  let w := World [ Obj None [("name", VStr "page"); ("section", VObj 1%nat);
                             ("sections", VObj 2%nat)];
                   Obj None [("header", VObj 3%nat)];
                   Obj None [("footer", VObj 3%nat)];
                   Obj None [] ]
                 (Client (VStr "xpath") [] 0 []) in
  getSection 0%nat (VStr "@footer") w
  = (Throw (JsError (section_not_found "footer" (VStr "page") ["footer"])), w).
Proof.
  intros w.
  apply (proj1 (unknown_section_is_reported 0%nat 1%nat 2%nat w
                  eq_refl eq_refl) "@footer").
  crunch.
Defined.

Lemma getAncestorsWithElement_links_sample :
  field objects (VObj 9%nat) "parent" = VObj 5%nat
  /\ truthy (field objects (VObj 5%nat) "selector") = true.
Proof.
  apply (getAncestorsWithElement_links 3 (VObj 11%nat) (start (VStr "xpath"))
           [VObj 5%nat; VObj 9%nat; VObj 11%nat] (start (VStr "xpath"))
           eq_refl 0%nat (VObj 5%nat) (VObj 9%nat)); reflexivity.
Defined.

Lemma getAncestorsWithElement_single_sample :
  (length [VObj 3%nat] = 1%nat <-> container_of objects (VObj 3%nat) = None)
  /\ effective_target objects (VObj 3%nat) [VObj 3%nat]
     = (VStr "#submit", VStr "css selector").
Proof.
  apply (getAncestorsWithElement_single 3 (VObj 3%nat) (start (VStr "xpath"))
           [VObj 3%nat] (start (VStr "xpath")) eq_refl).
Defined.

Lemma getAncestorsWithElement_NoDup_sample :
  List.NoDup [VObj 5%nat; VObj 9%nat; VObj 11%nat].
Proof.
  apply (getAncestorsWithElement_NoDup 3 (VObj 11%nat) (start (VStr "xpath"))
           [VObj 5%nat; VObj 9%nat; VObj 11%nat] (start (VStr "xpath"))
           eq_refl).
Defined.

(** Registering [click] from the catalog of the sample. *)
Lemma plain_command_registration_sample :
  exists w',
    applyCommand 0%nat (VObj 0%nat) (VObj 13%nat) "click" unregistered
    = (Ok tt, w')
    /\ get (heap w') 0%nat "click"
       = VFun (WrappedCommand 0%nat (VFun (Native 1)) "click" false)
    /\ cl w' = cl unregistered.
Proof.
  destruct (plain_command_registration 0%nat 0%nat (VObj 13%nat) "click"
              unregistered)
    as (w' & Hrun & Hslot & _ & _ & Hcl); try crunch.
  - split; discriminate.
  - exists w'. split; [exact Hrun|]. split; [|exact Hcl].
    rewrite Hslot. crunch.
Defined.

Lemma second_registration_fails_sample :
  exists w1 w2,
    applyCommand 0%nat (VObj 0%nat) (VObj 13%nat) "click" unregistered
    = (Ok tt, w1)
    /\ applyCommand 5%nat (VObj 0%nat) (VObj 13%nat) "click" w1
       = (Throw (JsError (already_defined "click")), w2)
    /\ results_errors (cl w2) = 1.
Proof.
  destruct (second_registration_fails 0%nat 0%nat (VObj 13%nat) "click"
              unregistered 5%nat (VObj 13%nat))
    as (w1 & w2 & H1 & H2 & Hcount & _); try crunch.
  - split; discriminate.
  - split; discriminate.
  - exists w1, w2. split; [exact H1|]. split; [exact H2|].
    rewrite Hcount. crunch.
Defined.



Lemma reference_is_cut_at_the_first_bracket_sample :
  JsString.matches_param "row<a<b>,c>" = true
  /\ JsString.substring2 0 (JsString.indexOf "<"%char "row<a<b>,c>")
       "row<a<b>,c>" = "row"
  /\ JsString.substring2 (JsString.indexOf "<"%char "row<a<b>,c>" + 1)
       (JsString.lastIndexOf ">"%char "row<a<b>,c>") "row<a<b>,c>"
     = "a<b>,c".
Proof.
  apply (reference_is_cut_at_the_first_bracket "row" "a<b>,c"). crunch.
Defined.

(** A loader that returns nothing. *)
Lemma loader_must_return_the_catalog_sample :
  addWrappedCommands (call natives 3) 0%nat (VFun (Native 3))
    (start (VStr "xpath"))
  = (Throw (JsTypeError "Cannot convert undefined or null to object"),
     World (objects ++ [Obj None []]) (cl (start (VStr "xpath")))).
Proof.
  apply (loader_must_return_the_catalog (call natives 3) 0%nat
           (VFun (Native 3)) (start (VStr "xpath"))).
  crunch.
Defined.

End MoreSampleRuns.
